(** * gawin_voice: the voice interaction state machine and the streamed-response
    pipeline of [components/ai-voice-interface.tsx] (the components
    [AIVoiceInterface] and [GawinVoiceInterface]) and the chat route.

    ECMAScript strings are sequences of UTF-16 code units; they are modelled
    as lists of code units.  Event handlers are modelled as state
    transformers that also record the calls they make on the platform objects
    (recognizer, synthesizer, audio graph).  The request body written with
    [JSON.stringify], the frame callback of
    [components/gawin-ice-cube.tsx] and the ripples of
    [components/ai-voice-sphere.tsx] follow the chat route. *)

From Stdlib Require Import Ascii String List NArith ZArith QArith Bool Lia Lqa.
From Stdlib Require Import Floats Uint63.
Import ListNotations.

Set Implicit Arguments.
Set Warnings "-register-all".

(* ------------------------------------------------------------------ *)
(** ** ECMAScript strings *)

Definition jsstring := list N.

(** [str] reads a source literal verbatim. *)
Fixpoint str (s : string) : jsstring :=
  match s with
  | EmptyString => []
  | String a r => N_of_ascii a :: str r
  end.

(** [qstr] reads a source literal in which the apostrophe stands for the
    double quote (code unit 34), so that JSON texts can be written down. *)
Definition requote (c : N) : N := if N.eqb c 39 then 34%N else c.
Definition qstr (s : string) : jsstring := map requote (str s).

Definition NL : N := 10.

(** [String.prototype.split] with the separator LF: every LF ends a piece and
    the text after the last LF is a piece too, so the result is never empty. *)
Fixpoint split_lines (s : jsstring) : list jsstring :=
  match s with
  | [] => [[]]
  | c :: r =>
      if N.eqb c NL then [] :: split_lines r
      else match split_lines r with
           | l :: ls => (c :: l) :: ls
           | [] => [[c]]
           end
  end.

(** [Array.prototype.join] with a one-unit separator. *)
Fixpoint join (sep : N) (ls : list jsstring) : jsstring :=
  match ls with
  | [] => []
  | [l] => l
  | l :: ls' => l ++ sep :: join sep ls'
  end.

(** [strip_prefix p s] is the text after [p] when [s] starts with [p]. *)
Fixpoint strip_prefix (p s : jsstring) : option jsstring :=
  match p, s with
  | [], _ => Some s
  | a :: p', b :: s' => if N.eqb a b then strip_prefix p' s' else None
  | _ :: _, [] => None
  end.

Definition startsWith (p s : jsstring) : bool :=
  match strip_prefix p s with Some _ => true | None => false end.

(** [s.slice(n)] for [0 <= n]. *)
Definition slice (n : nat) (s : jsstring) : jsstring := skipn n s.

Definition no_newline (l : jsstring) : Prop := ~ In NL l.

(* ------------------------------------------------------------------ *)
(** ** JSON values and [JSON.parse] *)

Inductive json : Type :=
| JNull
| JBool (b : bool)
| JNumber (lexeme : jsstring)
| JString (s : jsstring)
| JArray (elements : list json)
| JObject (members : list (jsstring * json)).

Inductive parsed (A : Type) : Type :=
| Ok (a : A) (rest : jsstring)
| SyntaxError
| OutOfFuel.
Arguments SyntaxError {A}.
Arguments OutOfFuel {A}.

Definition is_ws (c : N) : bool :=
  N.eqb c 32 || N.eqb c 9 || N.eqb c 10 || N.eqb c 13.

Fixpoint skip_ws (s : jsstring) : jsstring :=
  match s with
  | c :: r => if is_ws c then skip_ws r else s
  | [] => []
  end.

Definition is_digit (c : N) : bool := N.leb 48 c && N.leb c 57.

Fixpoint span_digits (s : jsstring) : jsstring * jsstring :=
  match s with
  | c :: r =>
      if is_digit c then let (d, r') := span_digits r in (c :: d, r')
      else ([], s)
  | [] => ([], [])
  end.

Definition hex_value (c : N) : option N :=
  if N.leb 48 c && N.leb c 57 then Some (c - 48)%N
  else if N.leb 65 c && N.leb c 70 then Some (c - 55)%N
  else if N.leb 97 c && N.leb c 102 then Some (c - 87)%N
  else None.

Definition hex4 (a b c d : N) : option N :=
  match hex_value a, hex_value b, hex_value c, hex_value d with
  | Some x, Some y, Some z, Some w => Some (((x * 16 + y) * 16 + z) * 16 + w)%N
  | _, _, _, _ => None
  end.

Definition simple_escape (e : N) : option N :=
  if N.eqb e 34 then Some 34%N          (* quotation mark *)
  else if N.eqb e 92 then Some 92%N     (* reverse solidus *)
  else if N.eqb e 47 then Some 47%N     (* solidus *)
  else if N.eqb e 98 then Some 8%N      (* b: backspace *)
  else if N.eqb e 102 then Some 12%N    (* f: form feed *)
  else if N.eqb e 110 then Some 10%N    (* n: line feed *)
  else if N.eqb e 114 then Some 13%N    (* r: carriage return *)
  else if N.eqb e 116 then Some 9%N     (* t: tab *)
  else None.

(** The characters of a string literal after its opening quote, up to and
    including the closing quote. *)
Fixpoint parse_string_body (s : jsstring) : option (jsstring * jsstring) :=
  match s with
  | [] => None
  | c :: r =>
      if N.eqb c 34 then Some ([], r)
      else if N.eqb c 92 then
        match r with
        | [] => None
        | e :: r1 =>
            if N.eqb e 117 then
              match r1 with
              | h1 :: h2 :: h3 :: h4 :: r2 =>
                  match hex4 h1 h2 h3 h4, parse_string_body r2 with
                  | Some u, Some (t, rest) => Some (u :: t, rest)
                  | _, _ => None
                  end
              | _ => None
              end
            else
              match simple_escape e, parse_string_body r1 with
              | Some u, Some (t, rest) => Some (u :: t, rest)
              | _, _ => None
              end
        end
      else if N.ltb c 32 then None
      else match parse_string_body r with
           | Some (t, rest) => Some (c :: t, rest)
           | None => None
           end
  end.

(** A number literal: an optional minus sign, an integer part (a single zero,
    or a nonzero digit followed by digits), an optional fraction (a point and
    at least one digit) and an optional exponent (e or E, an optional sign and
    at least one digit).  The value keeps the lexeme. *)
Definition parse_int_part (s : jsstring) : option (jsstring * jsstring) :=
  match s with
  | c :: r =>
      if N.eqb c 48 then Some ([c], r)
      else if is_digit c then let (d, r') := span_digits r in Some (c :: d, r')
      else None
  | [] => None
  end.

Definition parse_frac_part (s : jsstring) : option (jsstring * jsstring) :=
  match s with
  | c :: r =>
      if N.eqb c 46 then
        match span_digits r with
        | ([], _) => None
        | (d, r') => Some (c :: d, r')
        end
      else Some ([], s)
  | [] => Some ([], [])
  end.

Definition parse_exp_part (s : jsstring) : option (jsstring * jsstring) :=
  match s with
  | c :: r =>
      if N.eqb c 101 || N.eqb c 69 then
        let (sign, r0) :=
          match r with
          | g :: r' => if N.eqb g 43 || N.eqb g 45 then ([g], r') else ([], r)
          | [] => ([], r)
          end in
        match span_digits r0 with
        | ([], _) => None
        | (d, r') => Some (c :: sign ++ d, r')
        end
      else Some ([], s)
  | [] => Some ([], [])
  end.

Definition parse_number (s : jsstring) : option (jsstring * jsstring) :=
  let (sign, s0) :=
    match s with
    | c :: r => if N.eqb c 45 then ([c], r) else ([], s)
    | [] => ([], s)
    end in
  match parse_int_part s0 with
  | None => None
  | Some (i, s1) =>
      match parse_frac_part s1 with
      | None => None
      | Some (f, s2) =>
          match parse_exp_part s2 with
          | None => None
          | Some (e, s3) => Some (sign ++ i ++ f ++ e, s3)
          end
      end
  end.

Definition parse_keyword (kw : string) (v : json) (s : jsstring) : parsed json :=
  match strip_prefix (str kw) s with
  | Some r => Ok v r
  | None => SyntaxError
  end.

(** Recursive descent over values, array elements and object members.  Every
    nested call is paid for with one unit of fuel. *)
Fixpoint parse_value (fuel : nat) (s : jsstring) : parsed json :=
  match fuel with
  | O => OutOfFuel
  | S fuel' =>
      match skip_ws s with
      | [] => SyntaxError
      | c :: r =>
          if N.eqb c 123 then                       (* { *)
            match skip_ws r with
            | d :: r' =>
                if N.eqb d 125 then Ok (JObject []) r'
                else match parse_members fuel' (skip_ws r) with
                     | Ok ms rest => Ok (JObject ms) rest
                     | SyntaxError => SyntaxError
                     | OutOfFuel => OutOfFuel
                     end
            | [] => SyntaxError
            end
          else if N.eqb c 91 then                   (* [ *)
            match skip_ws r with
            | d :: r' =>
                if N.eqb d 93 then Ok (JArray []) r'
                else match parse_elements fuel' r with
                     | Ok es rest => Ok (JArray es) rest
                     | SyntaxError => SyntaxError
                     | OutOfFuel => OutOfFuel
                     end
            | [] => SyntaxError
            end
          else if N.eqb c 34 then                   (* string *)
            match parse_string_body r with
            | Some (t, rest) => Ok (JString t) rest
            | None => SyntaxError
            end
          else if N.eqb c 116 then parse_keyword "true" (JBool true) (c :: r)
          else if N.eqb c 102 then parse_keyword "false" (JBool false) (c :: r)
          else if N.eqb c 110 then parse_keyword "null" JNull (c :: r)
          else match parse_number (c :: r) with
               | Some (lexeme, rest) => Ok (JNumber lexeme) rest
               | None => SyntaxError
               end
      end
  end

with parse_elements (fuel : nat) (s : jsstring) : parsed (list json) :=
  match fuel with
  | O => OutOfFuel
  | S fuel' =>
      match parse_value fuel' s with
      | Ok v rest =>
          match skip_ws rest with
          | d :: r' =>
              if N.eqb d 93 then Ok [v] r'           (* ] *)
              else if N.eqb d 44 then                (* , *)
                match parse_elements fuel' r' with
                | Ok vs rest' => Ok (v :: vs) rest'
                | SyntaxError => SyntaxError
                | OutOfFuel => OutOfFuel
                end
              else SyntaxError
          | [] => SyntaxError
          end
      | SyntaxError => SyntaxError
      | OutOfFuel => OutOfFuel
      end
  end

with parse_members (fuel : nat) (s : jsstring) : parsed (list (jsstring * json)) :=
  match fuel with
  | O => OutOfFuel
  | S fuel' =>
      match s with
      | q :: r =>
          if N.eqb q 34 then
            match parse_string_body r with
            | Some (k, r1) =>
                match skip_ws r1 with
                | colon :: r2 =>
                    if N.eqb colon 58 then
                      match parse_value fuel' r2 with
                      | Ok v rest =>
                          match skip_ws rest with
                          | d :: r' =>
                              if N.eqb d 125 then Ok [(k, v)] r'      (* } *)
                              else if N.eqb d 44 then                 (* , *)
                                match parse_members fuel' (skip_ws r') with
                                | Ok ms rest' => Ok ((k, v) :: ms) rest'
                                | SyntaxError => SyntaxError
                                | OutOfFuel => OutOfFuel
                                end
                              else SyntaxError
                          | [] => SyntaxError
                          end
                      | SyntaxError => SyntaxError
                      | OutOfFuel => OutOfFuel
                      end
                    else SyntaxError
                | [] => SyntaxError
                end
            | None => SyntaxError
            end
          else SyntaxError
      | [] => SyntaxError
      end
  end.

Definition parse_fuel (s : jsstring) : nat := 2 * List.length s + 2.

(** [JSON.parse]: one value with optional white space around it; [None] is
    the [SyntaxError] the call throws. *)
Definition JSON_parse (s : jsstring) : option json :=
  match parse_value (parse_fuel s) s with
  | Ok v rest => match skip_ws rest with [] => Some v | _ :: _ => None end
  | SyntaxError => None
  | OutOfFuel => None
  end.

(* ------------------------------------------------------------------ *)
(** ** Property access and coercions on parsed values *)

Definition jsstring_eqb (a b : jsstring) : bool :=
  if list_eq_dec N.eq_dec a b then true else false.

(** The own property [key] of an object built by [JSON.parse]: of members
    with the same name the last one stands. *)
Fixpoint own_property (key : jsstring) (ms : list (jsstring * json)) : option json :=
  match ms with
  | [] => None
  | (k, v) :: ms' =>
      match own_property key ms' with
      | Some w => Some w
      | None => if jsstring_eqb k key then Some v else None
      end
  end.

(** What an expression evaluates to: a value, [undefined], or a thrown
    [TypeError]. *)
Inductive evaluation : Type :=
| Value (v : json)
| Undefined
| Throws.

(** [data.key] on a parsed value: reading a property of [null] throws; an
    object yields its own member; arrays and primitives have no property of
    the names used here. *)
Definition get_property (key : string) (data : json) : evaluation :=
  match data with
  | JNull => Throws
  | JObject ms =>
      match own_property (str key) ms with
      | Some v => Value v
      | None => Undefined
      end
  | _ => Undefined
  end.

Definition get_content (data : json) : evaluation := get_property "content" data.

(** The host's arithmetic on number literals (binary64 rounding and
    [Number::toString]) is not part of the repository: the development is
    parametric in it. *)
Record NumberHost : Type := {
  number_nonzero : jsstring -> bool;
  number_text : jsstring -> jsstring
}.

(** A host for the closed examples below, none of which contains a number: a
    literal is nonzero when its mantissa has a nonzero digit, and prints as
    it was written. *)
Fixpoint mantissa (lexeme : jsstring) : jsstring :=
  match lexeme with
  | [] => []
  | c :: r => if N.eqb c 101 || N.eqb c 69 then [] else c :: mantissa r
  end.

Definition lexeme_host : NumberHost :=
  {| number_nonzero := fun lexeme => existsb (fun c => N.leb 49 c && N.leb c 57) (mantissa lexeme);
     number_text := fun lexeme => lexeme |}.

Section Coercions.

Variable host : NumberHost.

Definition ToBoolean (v : json) : bool :=
  match v with
  | JNull => false
  | JBool b => b
  | JNumber lexeme => number_nonzero host lexeme
  | JString s => match s with [] => false | _ :: _ => true end
  | JArray _ => true
  | JObject _ => true
  end.

Definition has_own (key : string) (ms : list (jsstring * json)) : bool :=
  match own_property (str key) ms with Some _ => true | None => false end.

(** [ToString], as string concatenation applies it; [None] is a thrown
    [TypeError].  An object prints as [[object Object]] through the
    inherited [toString]; an own member of that name (never callable in a
    parsed value) hides it, and the conversion throws.  An array joins its
    elements with commas, [null] elements printing as the empty string. *)
Fixpoint ToString (v : json) : option jsstring :=
  match v with
  | JNull => Some (str "null")
  | JBool true => Some (str "true")
  | JBool false => Some (str "false")
  | JNumber lexeme => Some (number_text host lexeme)
  | JString s => Some s
  | JArray es =>
      option_map (join 44)
        ((fix elements (l : list json) : option (list jsstring) :=
            match l with
            | [] => Some []
            | e :: l' =>
                match (match e with JNull => Some [] | _ => ToString e end),
                      elements l' with
                | Some t, Some ts => Some (t :: ts)
                | _, _ => None
                end
            end) es)
  | JObject ms =>
      if has_own "toString" ms then None else Some (str "[object Object]")
  end.

End Coercions.

(* ------------------------------------------------------------------ *)
(** ** The read loop of [handleVoiceInput]

    Both components run the same loop (lines 109-130 and 437-458). *)

Inductive StreamEnd : Type :=
| Done           (* [reader.read()] reports [done] *)
| ReadRejected.  (* [reader.read()] rejects *)

(** A response body as the reader delivers it: the decoded chunks, in order,
    and how the stream ends. *)
Record Body : Type := { chunks : list jsstring; ending : StreamEnd }.

Inductive FetchResult : Type :=
| FetchRejected
| FetchResponse (ok : bool) (body : option Body).

Section ReadLoop.

Variable host : NumberHost.

(** The body of [for (const line of lines)], on the accumulator
    [aiResponse]. *)
Definition line_step (aiResponse line : jsstring) : jsstring :=
  if startsWith (str "0:") line then
    match JSON_parse (slice 2 line) with
    | Some data =>
        match get_content data with
        | Value v =>
            if ToBoolean host v then
              match ToString host v with
              | Some t => aiResponse ++ t
              | None => aiResponse        (* thrown inside [try]: caught *)
              end
            else aiResponse
        | Undefined => aiResponse
        | Throws => aiResponse            (* thrown inside [try]: caught *)
        end
    | None => aiResponse                  (* catch: skip invalid JSON *)
    end
  else aiResponse.

(** The body of [while (true)] for one chunk that was read. *)
Definition chunk_step (aiResponse chunk : jsstring) : jsstring :=
  fold_left line_step (split_lines chunk) aiResponse.

(** The loop over all chunks, from [let aiResponse = ""]. *)
Definition read_loop (cs : list jsstring) : jsstring :=
  fold_left chunk_step cs [].

(** The text one line adds to the buffer. *)
Definition frame_text (line : jsstring) : jsstring := line_step [] line.

(** The text one chunk adds to the buffer, read off the chunk alone. *)
Definition chunk_text (chunk : jsstring) : jsstring :=
  concat (map frame_text (split_lines chunk)).

(** The lines the loop visits, in order. *)
Definition lines_read (cs : list jsstring) : list jsstring :=
  concat (map split_lines cs).



(** The [try] block up to the end of the loop: the value of [aiResponse],
    or [None] when control passes to [catch]. *)
Definition try_block (net : FetchResult) : option jsstring :=
  match net with
  | FetchRejected => None
  | FetchResponse false _ => None
  | FetchResponse true None => Some []
  | FetchResponse true (Some b) =>
      match ending b with
      | Done => Some (read_loop (chunks b))
      | ReadRejected => None
      end
  end.

End ReadLoop.

(** [a || b] on strings. *)
Definition or_else (a b : jsstring) : jsstring :=
  match a with [] => b | _ :: _ => a end.

Definition no_response_text : jsstring :=
  str "I heard you, but I'm not sure how to respond to that.".

(* ------------------------------------------------------------------ *)
(** ** Responses, frames and lines used in the statements *)

(** The call fails: [fetch] rejects, or the response is not [ok]. *)
Definition call_failed (net : FetchResult) : bool :=
  match net with
  | FetchRejected => true
  | FetchResponse ok _ => negb ok
  end.

Definition frame_Hel : jsstring := qstr "0:{'content':'Hel'}".
Definition frame_lo : jsstring := qstr "0:{'content':'lo'}".

Definition nonblank (l : jsstring) : bool :=
  match l with [] => false | _ :: _ => true end.

(** A successful response whose body delivers the chunks [cs] and then
    reports [done]. *)
Definition delivered (cs : list jsstring) : FetchResult :=
  FetchResponse true (Some {| chunks := cs; ending := Done |}).

Definition CR : N := 13.
Definition frame_Hi : jsstring := qstr "0:{'content':'Hi'}".


(** *** Content frames as the server writes them *)

Definition QUOTE : N := 34.
Definition BACKSLASH : N := 92.

(** The characters between the quotes of a string literal: followed by the
    closing quote they parse, and the parse ends there. *)
Definition literal_body (body : jsstring) : Prop :=
  exists text, parse_string_body (body ++ [QUOTE]) = Some (text, []).

Definition frame_header : jsstring := qstr "0:{'content':'".

(** The line [0:{"content":"<body>"}]. *)
Definition content_frame (body : jsstring) : jsstring :=
  frame_header ++ body ++ [QUOTE; 125%N].

Definition object_header : jsstring := qstr "{'content':'".

(* ------------------------------------------------------------------ *)
(** ** Handlers as actions *)

Inductive VoiceState : Type := idle | listening | processing | speaking.

Definition VoiceState_eqb (a b : VoiceState) : bool :=
  match a, b with
  | idle, idle | listening, listening
  | processing, processing | speaking, speaking => true
  | _, _ => false
  end.

(** Calls a handler makes on the platform objects and on the callbacks it
    was given. *)
Inductive Call : Type :=
| recognition_start
| recognition_stop
| synth_speak (text : jsstring)
| synth_cancel
| fetch_chat (content : jsstring)
| onVoiceInput (text : jsstring)
| cancelAnimationFrame (id : nat)
| track_stop (track : nat)
| audioContext_close
| requestAnimationFrame
| console_error
| console_log.

(** An action reads and writes the component and records its calls. *)
Definition Act (S A : Type) : Type := S -> A * S * list Call.

Definition ret {S A : Type} (a : A) : Act S A := fun s => (a, s, []).

Definition bind {S A B : Type} (m : Act S A) (k : A -> Act S B) : Act S B :=
  fun s =>
    let '(a, s1, c1) := m s in
    let '(b, s2, c2) := k a s1 in
    (b, s2, c1 ++ c2).

Definition call {S : Type} (c : Call) : Act S unit := fun s => (tt, s, [c]).
Definition update {S : Type} (f : S -> S) : Act S unit := fun s => (tt, f s, []).
Definition read {S A : Type} (f : S -> A) : Act S A := fun s => (f s, s, []).
Definition when {S : Type} (b : bool) (m : Act S unit) : Act S unit :=
  if b then m else ret tt.

Declare Scope act_scope.
Delimit Scope act_scope with act.
Notation "x <- m ;; k" := (bind m (fun x => k))
  (at level 61, m at next level, right associativity) : act_scope.
Notation "m ;; k" := (bind m (fun _ => k))
  (at level 61, right associativity) : act_scope.
Open Scope act_scope.

(** [Array.prototype.forEach] with an action for callback. *)
Definition forEach {S A : Type} (f : A -> Act S unit) (l : list A) : Act S unit :=
  fold_right (fun x k => f x ;; k) (ret tt) l.

Definition result_of {S A : Type} (r : A * S * list Call) : A := fst (fst r).
Definition after {S A : Type} (r : A * S * list Call) : S := snd (fst r).
Definition calls_of {S A : Type} (r : A * S * list Call) : list Call := snd r.

(* ------------------------------------------------------------------ *)
(** ** [AIVoiceInterface] (lines 25-264) *)

Module AIVoiceInterface.

(** The [useState] cells.  A render sees one value of each, and so does
    every closure created during that render. *)
Record Cells : Type := {
  state : VoiceState;
  isListening : bool;
  transcript : jsstring;
  response : jsstring;
  isMuted : bool
}.

(** The mounted component: the live cells and the [useRef] objects, whose
    [current] is either a handle ([true]) or [null]. *)
Record Component : Type := {
  cells : Cells;
  recognitionRef : bool;
  synthRef : bool
}.

Definition with_cells (f : Cells -> Cells) (c : Component) : Component :=
  {| cells := f (cells c);
     recognitionRef := recognitionRef c;
     synthRef := synthRef c |}.

Definition setState (v : VoiceState) : Act Component unit :=
  update (with_cells (fun k =>
    {| state := v; isListening := isListening k; transcript := transcript k;
       response := response k; isMuted := isMuted k |})).

Definition setIsListening (v : bool) : Act Component unit :=
  update (with_cells (fun k =>
    {| state := state k; isListening := v; transcript := transcript k;
       response := response k; isMuted := isMuted k |})).

Definition setTranscript (v : jsstring) : Act Component unit :=
  update (with_cells (fun k =>
    {| state := state k; isListening := isListening k; transcript := v;
       response := response k; isMuted := isMuted k |})).

Definition setResponse (v : jsstring) : Act Component unit :=
  update (with_cells (fun k =>
    {| state := state k; isListening := isListening k; transcript := transcript k;
       response := v; isMuted := isMuted k |})).

Definition setIsMuted (v : bool) : Act Component unit :=
  update (with_cells (fun k =>
    {| state := state k; isListening := isListening k; transcript := transcript k;
       response := response k; isMuted := v |})).

(** The values of [useState(...)] at the first render. *)
Definition first_render : Cells :=
  {| state := idle; isListening := false; transcript := [];
     response := []; isMuted := false |}.

(** The component after the mount effect ran: the recognizer is created
    when the window has a constructor for it, and [synthRef.current] is
    [window.speechSynthesis]. *)
Definition mount (SpeechRecognition speechSynthesis : bool) : Component :=
  {| cells := first_render;
     recognitionRef := SpeechRecognition;
     synthRef := speechSynthesis |}.

Definition trouble_text : jsstring :=
  str "I'm having trouble processing that right now. Please try again.".

Section Handlers.

Variable host : NumberHost.

(** Every handler takes the cells [r] of the render that created it. *)

Definition onstart : Act Component unit :=
  setState listening ;; setIsListening true.

(** [handleVoiceInput] up to [await fetch(...)].  The optional prop
    [onVoiceInput] is taken as given; without it that call is not made. *)
Definition handleVoiceInput_request (text : jsstring) : Act Component unit :=
  setState processing ;;
  call (onVoiceInput text) ;;
  call (fetch_chat text).

(** [handleVoiceInput] from the moment the request has settled as [net];
    the result is the response text. *)
Definition handleVoiceInput_settle (r : Cells) (net : FetchResult)
  : Act Component jsstring :=
  match try_block host net with
  | Some aiResponse =>
      let finalResponse := or_else aiResponse no_response_text in
      setResponse finalResponse ;;
      synth <- read synthRef ;;
      (if negb (isMuted r) && synth
       then setState speaking ;; call (synth_speak finalResponse)
       else setState idle) ;;
      ret finalResponse
  | None =>
      call console_error ;;
      let fallbackResponse := trouble_text in
      setResponse fallbackResponse ;;
      synth <- read synthRef ;;
      (if negb (isMuted r) && synth
       then setState speaking ;; call (synth_speak fallbackResponse)
       else setState idle) ;;
      ret fallbackResponse
  end.

Definition handleVoiceInput (r : Cells) (text : jsstring) (net : FetchResult)
  : Act Component jsstring :=
  handleVoiceInput_request text ;;
  handleVoiceInput_settle r net.

(** [onresult] up to the first [await] inside [handleVoiceInput]. *)
Definition onresult (text : jsstring) (isFinal : bool) : Act Component unit :=
  setTranscript text ;;
  when isFinal (handleVoiceInput_request text).

Definition onend (r : Cells) : Act Component unit :=
  setIsListening false ;;
  when (VoiceState_eqb (state r) listening) (setState idle).

Definition onerror : Act Component unit :=
  call console_error ;;
  setIsListening false ;;
  setState idle.

Definition utterance_onend : Act Component unit := setState idle.

Definition startListening (r : Cells) : Act Component unit :=
  recognition <- read recognitionRef ;;
  when (recognition && negb (isListening r))
    (setTranscript [] ;; call recognition_start).

Definition stopListening (r : Cells) : Act Component unit :=
  recognition <- read recognitionRef ;;
  when (recognition && isListening r) (call recognition_stop).

(** [synth_speaking] is [synthRef.current.speaking] at the time of the
    click. *)
Definition toggleMute (r : Cells) (synth_speaking : bool) : Act Component unit :=
  setIsMuted (negb (isMuted r)) ;;
  synth <- read synthRef ;;
  when (synth && synth_speaking) (call synth_cancel ;; setState idle).

(** The microphone button: [disabled] while processing or speaking,
    otherwise [onClick] is [stopListening] or [startListening]. *)
Definition mic_button_disabled (r : Cells) : bool :=
  VoiceState_eqb (state r) processing || VoiceState_eqb (state r) speaking.

Definition mic_button_click (r : Cells) : Act Component unit :=
  if mic_button_disabled r then ret tt
  else if isListening r then stopListening r else startListening r.

(** The cleanup of the mount effect. *)
Definition cleanup : Act Component unit :=
  recognition <- read recognitionRef ;;
  when recognition (call recognition_stop) ;;
  synth <- read synthRef ;;
  when synth (call synth_cancel).

(** What can happen to the mounted component. *)
Inductive Event : Type :=
| MicClick
| MuteClick (synth_speaking : bool)
| RecognitionStart
| RecognitionResult (text : jsstring) (isFinal : bool)
| RequestSettled (net : FetchResult)
| RecognitionEnd
| RecognitionError
| UtteranceEnd
| Unmount.

(** The recognizer's handlers are assigned once, by the effect with the
    empty dependency list, so they are the closures of the first render;
    [handleVoiceInput] is reached only through [onresult] and is the
    first render's too.  The button handlers are attached anew by every
    render and see the current cells. *)
Definition dispatch (e : Event) : Act Component unit :=
  fun c =>
    match e with
    | MicClick => mic_button_click (cells c) c
    | MuteClick sp => toggleMute (cells c) sp c
    | RecognitionStart => onstart c
    | RecognitionResult text isFinal => onresult text isFinal c
    | RequestSettled net =>
        (handleVoiceInput_settle first_render net ;; ret tt) c
    | RecognitionEnd => onend first_render c
    | RecognitionError => onerror c
    | UtteranceEnd => utterance_onend c
    | Unmount => cleanup c
    end.

Fixpoint run (es : list Event) (c : Component) : Component * list Call :=
  match es with
  | [] => (c, [])
  | e :: es' =>
      let '(_, c1, k1) := dispatch e c in
      let '(c2, k2) := run es' c1 in
      (c2, k1 ++ k2)
  end.

End Handlers.

End AIVoiceInterface.

(* ------------------------------------------------------------------ *)
(** ** [GawinVoiceInterface] (lines 279-517) *)

Module GawinVoiceInterface.

Record Cells : Type := {
  state : VoiceState;
  isListening : bool;
  audioLevel : Q
}.

(** The [useRef] objects: a handle or [null]; the media stream is known by
    its tracks, the pending animation frame by its id. *)
Record Component : Type := {
  cells : Cells;
  recognitionRef : bool;
  synthRef : bool;
  audioContextRef : bool;
  analyserRef : bool;
  streamRef : option (list nat);
  animationRef : option nat
}.

Definition with_cells (f : Cells -> Cells) (c : Component) : Component :=
  {| cells := f (cells c);
     recognitionRef := recognitionRef c; synthRef := synthRef c;
     audioContextRef := audioContextRef c; analyserRef := analyserRef c;
     streamRef := streamRef c; animationRef := animationRef c |}.

Definition setState (v : VoiceState) : Act Component unit :=
  update (with_cells (fun k =>
    {| state := v; isListening := isListening k; audioLevel := audioLevel k |})).

Definition setIsListening (v : bool) : Act Component unit :=
  update (with_cells (fun k =>
    {| state := state k; isListening := v; audioLevel := audioLevel k |})).

Definition setAudioLevel (v : Q) : Act Component unit :=
  update (with_cells (fun k =>
    {| state := state k; isListening := isListening k; audioLevel := v |})).

Definition set_animationRef (v : option nat) : Act Component unit :=
  update (fun c =>
    {| cells := cells c;
       recognitionRef := recognitionRef c; synthRef := synthRef c;
       audioContextRef := audioContextRef c; analyserRef := analyserRef c;
       streamRef := streamRef c; animationRef := v |}).

Definition first_render : Cells :=
  {| state := idle; isListening := false; audioLevel := 0 |}.

(** The component when both mount effects have run and [getUserMedia] has
    settled, at the point where [initializeAudio] is about to call
    [startAudioAnalysis] (line 323): [AudioContext] says whether the context
    was constructed, [userMedia] is the stream [getUserMedia] resolved with,
    if it did.  No frame has been analysed yet: the run of [analyze] that
    [startAudioAnalysis] makes at once (line 371), which writes the audio
    level and stores the first frame id, is the first [AnimationFrame]
    event. *)
Definition mount (SpeechRecognition speechSynthesis AudioContext : bool)
                 (userMedia : option (list nat)) : Component :=
  {| cells := first_render;
     recognitionRef := SpeechRecognition;
     synthRef := speechSynthesis;
     audioContextRef := AudioContext;
     analyserRef := AudioContext && (match userMedia with Some _ => true | None => false end);
     streamRef := if AudioContext then userMedia else None;
     animationRef := None |}.

Definition trouble_text : jsstring :=
  str "I'm having trouble processing that right now.".

(** *** The audio level sampler (lines 344-372) *)

Definition fftSize : nat := 256.
Definition frequencyBinCount : nat := fftSize / 2.
Definition bufferLength : nat := frequencyBinCount.

(** An element of the [Uint8Array]. *)
Definition magnitude (b : Byte.byte) : Z := Z.of_N (Byte.to_N b).

(** [dataArray.reduce((sum, value) => sum + value, 0)]. *)
Definition reduce_sum (dataArray : list Byte.byte) : Z :=
  fold_left (fun sum value => (sum + magnitude value)%Z) dataArray 0%Z.

Definition over (total : Z) (n : nat) : Q := inject_Z total / inject_Z (Z.of_nat n).

Definition average (dataArray : list Byte.byte) : Q :=
  over (reduce_sum dataArray) bufferLength.

Definition level (dataArray : list Byte.byte) : Q := average dataArray / 255.

Definition band (from to : nat) (dataArray : list Byte.byte) : Q :=
  over (reduce_sum (firstn (to - from) (skipn from dataArray))) (to - from).

Definition Qgtb (a b : Q) : bool := negb (Qle_bool a b).

Definition isMusic (dataArray : list Byte.byte) : bool :=
  Qgtb (band 10 50 dataArray) 100 && Qgtb (band 50 100 dataArray) 80
  && Qgtb (band 0 10 dataArray) 60.

(** One run of [analyze]: [dataArray] is what [getByteFrequencyData]
    wrote, [frame] the id [requestAnimationFrame] returns. *)
Definition analyze (r : Cells) (dataArray : list Byte.byte) (frame : nat)
  : Act Component unit :=
  setAudioLevel (level dataArray) ;;
  when (isMusic dataArray && VoiceState_eqb (state r) listening) (call console_log) ;;
  call requestAnimationFrame ;;
  set_animationRef (Some frame).

(** The mean of the magnitudes, as the specification words it. *)
Definition mean_magnitude (dataArray : list Byte.byte) : Q :=
  inject_Z (fold_right Z.add 0%Z (map magnitude dataArray))
  / inject_Z (Z.of_nat (List.length dataArray)).

Section Handlers.

Variable host : NumberHost.

Definition onstart : Act Component unit :=
  setState listening ;; setIsListening true.

Definition handleVoiceInput_request (text : jsstring) : Act Component unit :=
  setState processing ;;
  call (fetch_chat text).

Definition handleVoiceInput_settle (net : FetchResult) : Act Component jsstring :=
  match try_block host net with
  | Some aiResponse =>
      let finalResponse := or_else aiResponse no_response_text in
      synth <- read synthRef ;;
      (if synth
       then setState speaking ;; call (synth_speak finalResponse)
       else setState idle) ;;
      ret finalResponse
  | None =>
      call console_error ;;
      let fallbackResponse := trouble_text in
      synth <- read synthRef ;;
      (if synth
       then setState speaking ;; call (synth_speak fallbackResponse)
       else setState idle) ;;
      ret fallbackResponse
  end.

Definition handleVoiceInput (text : jsstring) (net : FetchResult)
  : Act Component jsstring :=
  handleVoiceInput_request text ;;
  handleVoiceInput_settle net.

Definition onresult (text : jsstring) : Act Component unit :=
  handleVoiceInput_request text.

Definition onend (r : Cells) : Act Component unit :=
  setIsListening false ;;
  when (VoiceState_eqb (state r) listening) (setState idle).

Definition onerror : Act Component unit :=
  setIsListening false ;;
  setState idle.

Definition utterance_onend : Act Component unit := setState idle.

Definition handleCubeClick (r : Cells) : Act Component unit :=
  recognition <- read recognitionRef ;;
  when (recognition && negb (isListening r) && VoiceState_eqb (state r) idle)
    (call recognition_start).

(** The cleanup of the audio effect (lines 331-341). *)
Definition audio_cleanup : Act Component unit :=
  animation <- read animationRef ;;
  match animation with
  | Some (S n) => call (cancelAnimationFrame (S n))
  | _ => ret tt
  end ;;
  stream <- read streamRef ;;
  match stream with
  | Some tracks => forEach (fun track => call (track_stop track)) tracks
  | None => ret tt
  end ;;
  audioContext <- read audioContextRef ;;
  when audioContext (call audioContext_close).

(** The cleanup of the recognition effect (lines 410-417). *)
Definition recognition_cleanup : Act Component unit :=
  recognition <- read recognitionRef ;;
  when recognition (call recognition_stop) ;;
  synth <- read synthRef ;;
  when synth (call synth_cancel).

(** Unmounting runs the cleanups in the order of their effects. *)
Definition unmount : Act Component unit :=
  audio_cleanup ;; recognition_cleanup.

Inductive Event : Type :=
| CubeClick
| RecognitionStart
| RecognitionResult (text : jsstring)
| RequestSettled (net : FetchResult)
| RecognitionEnd
| RecognitionError
| UtteranceEnd
| AnimationFrame (dataArray : list Byte.byte) (frame : nat)
| Unmount.

(** As in [AIVoiceInterface]: the recognizer's handlers and [analyze] are
    created once, by effects with the empty dependency list, and are the
    closures of the first render; the cube's [onClick] is attached anew
    by every render.  [startAudioAnalysis] returns at once when there is
    no analyser, so no frame is analysed then. *)
Definition dispatch (e : Event) : Act Component unit :=
  fun c =>
    match e with
    | CubeClick => handleCubeClick (cells c) c
    | RecognitionStart => onstart c
    | RecognitionResult text => onresult text c
    | RequestSettled net => (handleVoiceInput_settle net ;; ret tt) c
    | RecognitionEnd => onend first_render c
    | RecognitionError => onerror c
    | UtteranceEnd => utterance_onend c
    | AnimationFrame dataArray frame =>
        if analyserRef c then analyze first_render dataArray frame c
        else (tt, c, [])
    | Unmount => unmount c
    end.

Fixpoint run (es : list Event) (c : Component) : Component * list Call :=
  match es with
  | [] => (c, [])
  | e :: es' =>
      let '(_, c1, k1) := dispatch e c in
      let '(c2, k2) := run es' c1 in
      (c2, k1 ++ k2)
  end.

End Handlers.

End GawinVoiceInterface.

(* ------------------------------------------------------------------ *)
(** ** The audio level sampler in binary64

    The two divisions of [analyze] on the machine's doubles, next to the
    exact ones above.  The running sum is an integer below 2^15, which
    binary64 holds without rounding; it is taken from [reduce_sum]. *)

(** The double that holds a small integer. *)
Definition double (n : Z) : float := PrimFloat.of_uint63 (Uint63.of_Z n).

Definition level_of_sum64 (total : Z) : float :=
  PrimFloat.div
    (PrimFloat.div (double total) (double (Z.of_nat GawinVoiceInterface.bufferLength)))
    (double 255).

Definition level64 (dataArray : list Byte.byte) : float :=
  level_of_sum64 (GawinVoiceInterface.reduce_sum dataArray).

(** The level of a sum lies between 0 and 1, and dividing the sum by the
    number of bins loses nothing. *)
Definition level_in_range (total : Z) : bool :=
  PrimFloat.leb (double 0) (level_of_sum64 total)
  && PrimFloat.leb (level_of_sum64 total) (double 1)
  && PrimFloat.Leibniz.eqb
       (PrimFloat.mul
          (PrimFloat.div (double total) (double (Z.of_nat GawinVoiceInterface.bufferLength)))
          (double (Z.of_nat GawinVoiceInterface.bufferLength)))
       (double total).

(** [all_from n s f]: [f] holds of the [n] integers from [s] on. *)
Fixpoint all_from (n : nat) (s : Z) (f : Z -> bool) : bool :=
  match n with
  | O => true
  | S k => f s && all_from k (s + 1)%Z f
  end.

(** [all_below n f]: [f] holds of the integers from 0 up to [n - 1]. *)
Definition all_below (n : Z) (f : Z -> bool) : bool := all_from (Z.to_nat n) 0 f.

(* ------------------------------------------------------------------ *)
(** ** The chat route ([POST] and [maxDuration]) *)

Module ChatRoute.

Definition maxDuration : Z := 30.

Record Request : Type := { body : jsstring; signal : nat }.

Section Route.

(** [convertToModelMessages] belongs to the [ai] package: it is taken as
    given, [None] standing for a thrown exception. *)
Variable Prompt : Type.
Variable convertToModelMessages : evaluation -> option Prompt.

(** The argument of [streamText]. *)
Record StreamTextOptions : Type := {
  model : jsstring;
  messages : Prompt;
  abortSignal : nat;
  maxTokens : Z;
  temperature : Q
}.

Inductive Reply : Type :=
| UIMessageStreamResponse (options : StreamTextOptions)
| JsonResponse (error : jsstring) (status : Z).

Definition failed : Reply :=
  JsonResponse (str "Failed to process chat request") 500.

Definition POST (req : Request) : Reply :=
  match JSON_parse (body req) with          (* await req.json() *)
  | None => failed
  | Some data =>
      match get_property "messages" data with
      | Throws => failed
      | messages_value =>
          match convertToModelMessages messages_value with
          | None => failed
          | Some prompt =>
              UIMessageStreamResponse
                {| model := str "gpt-4o-mini";
                   messages := prompt;
                   abortSignal := signal req;
                   maxTokens := 150;
                   temperature := 7 # 10 |}
          end
      end
  end.

End Route.

End ChatRoute.

(* ------------------------------------------------------------------ *)
(** ** [JSON.stringify] of the request body

    Both components send
    [JSON.stringify({ messages: [{ role: "user", content: text }] })].
    [QuoteJSONString] is the serialization of a string: the seven short
    escapes, [\uXXXX] for the other control characters and for surrogates
    that are not part of a pair, every other code unit as it is. *)

Definition hex_digit (d : N) : N := if N.ltb d 10 then (48 + d)%N else (87 + d)%N.

Definition UnicodeEscape (c : N) : jsstring :=
  [92; 117; hex_digit (c / 4096); hex_digit ((c / 256) mod 16);
   hex_digit ((c / 16) mod 16); hex_digit (c mod 16)]%N.

Definition is_high_surrogate (c : N) : bool := N.leb 55296 c && N.leb c 56319.
Definition is_low_surrogate (c : N) : bool := N.leb 56320 c && N.leb c 57343.

Fixpoint quote_body (s : jsstring) : jsstring :=
  match s with
  | [] => []
  | c :: r =>
      if N.eqb c 8 then 92 :: 98 :: quote_body r
      else if N.eqb c 9 then 92 :: 116 :: quote_body r
      else if N.eqb c 10 then 92 :: 110 :: quote_body r
      else if N.eqb c 12 then 92 :: 102 :: quote_body r
      else if N.eqb c 13 then 92 :: 114 :: quote_body r
      else if N.eqb c 34 then 92 :: 34 :: quote_body r
      else if N.eqb c 92 then 92 :: 92 :: quote_body r
      else if N.ltb c 32 then UnicodeEscape c ++ quote_body r
      else if is_high_surrogate c then
        match r with
        | d :: r' =>
            if is_low_surrogate d then c :: d :: quote_body r'
            else UnicodeEscape c ++ quote_body r
        | [] => UnicodeEscape c
        end
      else if is_low_surrogate c then UnicodeEscape c ++ quote_body r
      else c :: quote_body r
  end%N.

Definition QuoteJSONString (s : jsstring) : jsstring :=
  34%N :: quote_body s ++ [34%N].

(** A string of the language: every element is a 16-bit code unit. *)
Definition code_units (s : jsstring) : Prop := Forall (fun c => (c < 65536)%N) s.

(** No surrogate outside a pair: such a text survives the UTF-8 encoding
    [fetch] applies to the body. *)
Fixpoint well_formed (s : jsstring) : bool :=
  match s with
  | [] => true
  | c :: r =>
      if is_high_surrogate c then
        match r with
        | d :: r' => is_low_surrogate d && well_formed r'
        | [] => false
        end
      else negb (is_low_surrogate c) && well_formed r
  end.

Definition below_surrogates (s : jsstring) : Prop :=
  Forall (fun c => (c < 55296)%N) s.

(** The [body] of the request [fetch_chat text] stands for. *)
Definition request_body (text : jsstring) : jsstring :=
  qstr "{'messages':[{'role':'user','content':" ++ QuoteJSONString text ++ qstr "}]}".

Definition user_message (text : jsstring) : json :=
  JObject [(str "role", JString (str "user")); (str "content", JString text)].

Definition request_value (text : jsstring) : json :=
  JObject [(str "messages", JArray [user_message text])].

(** The line [0:{"content":<JSON.stringify(delta)>}] with its line feed. *)
Definition content_line (delta : jsstring) : jsstring :=
  content_frame (quote_body delta) ++ [NL].

(** The line [0:<JSON.stringify(text)>]: the value after the prefix is a
    string, not an object. *)
Definition string_frame (text : jsstring) : jsstring :=
  str "0:" ++ QuoteJSONString text.

(** A chunk with only its lines that carry the [0:] prefix. *)
Definition only_prefixed (chunk : jsstring) : jsstring :=
  join NL (filter (startsWith (str "0:")) (split_lines chunk)).

(** [needle] occurs in [s], as [s.includes(needle)] computes it. *)
Fixpoint includes (needle s : jsstring) : bool :=
  startsWith needle s
  || match s with
     | [] => false
     | _ :: r => includes needle r
     end.

(* ------------------------------------------------------------------ *)
(** ** Traces of calls *)

Definition is_fetch (c : Call) : bool :=
  match c with fetch_chat _ => true | _ => false end.
Definition is_speak (c : Call) : bool :=
  match c with synth_speak _ => true | _ => false end.
Definition is_recognition (c : Call) : bool :=
  match c with recognition_start | recognition_stop => true | _ => false end.
Definition is_synth (c : Call) : bool :=
  match c with synth_speak _ | synth_cancel => true | _ => false end.
Definition is_start (c : Call) : bool :=
  match c with recognition_start => true | _ => false end.
Definition is_log (c : Call) : bool :=
  match c with console_log => true | _ => false end.
Definition is_frame_request (c : Call) : bool :=
  match c with requestAnimationFrame => true | _ => false end.
Definition is_cancel_frame (c : Call) : bool :=
  match c with cancelAnimationFrame _ => true | _ => false end.

(** The response text of a settled request. *)
Definition gawin_response (host : NumberHost) (net : FetchResult) : jsstring :=
  match try_block host net with
  | Some aiResponse => or_else aiResponse no_response_text
  | None => GawinVoiceInterface.trouble_text
  end.

Definition aivoice_response (host : NumberHost) (net : FetchResult) : jsstring :=
  match try_block host net with
  | Some aiResponse => or_else aiResponse no_response_text
  | None => AIVoiceInterface.trouble_text
  end.

(** One request for every transcript handed to [handleVoiceInput], one
    utterance for every request that settled. *)
Definition gawin_requests (es : list GawinVoiceInterface.Event) : list Call :=
  flat_map (fun e => match e with
                     | GawinVoiceInterface.RecognitionResult text => [fetch_chat text]
                     | _ => []
                     end) es.

Definition gawin_utterances (host : NumberHost) (es : list GawinVoiceInterface.Event)
  : list Call :=
  flat_map (fun e => match e with
                     | GawinVoiceInterface.RequestSettled net =>
                         [synth_speak (gawin_response host net)]
                     | _ => []
                     end) es.

Definition aivoice_requests (es : list AIVoiceInterface.Event) : list Call :=
  flat_map (fun e => match e with
                     | AIVoiceInterface.RecognitionResult text true => [fetch_chat text]
                     | _ => []
                     end) es.

Definition aivoice_utterances (host : NumberHost) (es : list AIVoiceInterface.Event)
  : list Call :=
  flat_map (fun e => match e with
                     | AIVoiceInterface.RequestSettled net =>
                         [synth_speak (aivoice_response host net)]
                     | _ => []
                     end) es.

Definition is_mute_click (e : AIVoiceInterface.Event) : bool :=
  match e with AIVoiceInterface.MuteClick _ => true | _ => false end.
(** The runs of the microphone button's [onClick] and of
    [handleCubeClick]. *)
Definition is_mic_click (e : AIVoiceInterface.Event) : bool :=
  match e with AIVoiceInterface.MicClick => true | _ => false end.
Definition is_cube_click (e : GawinVoiceInterface.Event) : bool :=
  match e with GawinVoiceInterface.CubeClick => true | _ => false end.

(** Two components that differ at most in the [isMuted] cell. *)
Definition same_but_mute (c c' : AIVoiceInterface.Component) : Prop :=
  AIVoiceInterface.recognitionRef c = AIVoiceInterface.recognitionRef c'
  /\ AIVoiceInterface.synthRef c = AIVoiceInterface.synthRef c'
  /\ AIVoiceInterface.state (AIVoiceInterface.cells c)
     = AIVoiceInterface.state (AIVoiceInterface.cells c')
  /\ AIVoiceInterface.isListening (AIVoiceInterface.cells c)
     = AIVoiceInterface.isListening (AIVoiceInterface.cells c')
  /\ AIVoiceInterface.transcript (AIVoiceInterface.cells c)
     = AIVoiceInterface.transcript (AIVoiceInterface.cells c')
  /\ AIVoiceInterface.response (AIVoiceInterface.cells c)
     = AIVoiceInterface.response (AIVoiceInterface.cells c').

(** The events that need no recognizer, request or utterance under way: a
    click on the cube and an animation frame. *)
Definition user_or_frame (e : GawinVoiceInterface.Event) : bool :=
  match e with
  | GawinVoiceInterface.CubeClick | GawinVoiceInterface.AnimationFrame _ _ => true
  | _ => false
  end.

(** The id of the frame requested last. *)
Definition last_frame (es : list GawinVoiceInterface.Event) (start : option nat)
  : option nat :=
  fold_left (fun acc e => match e with
                          | GawinVoiceInterface.AnimationFrame _ frame => Some frame
                          | _ => acc
                          end) es start.

Definition frames_analysed (es : list GawinVoiceInterface.Event) : nat :=
  List.length (filter (fun e => match e with
                                | GawinVoiceInterface.AnimationFrame _ _ => true
                                | _ => false
                                end) es).

(** The sample array of a frame has the length of the analyser's buffer. *)
Definition frame_sized (e : GawinVoiceInterface.Event) : Prop :=
  match e with
  | GawinVoiceInterface.AnimationFrame dataArray _ =>
      List.length dataArray = GawinVoiceInterface.bufferLength
  | _ => True
  end.

Definition unit_interval (q : Q) : Prop := 0 <= q /\ q <= 1.

(* ------------------------------------------------------------------ *)
(** ** The band test of [analyze] in binary64 (lines 358-366) *)

Definition band64 (from to : nat) (dataArray : list Byte.byte) : float :=
  PrimFloat.div
    (double (GawinVoiceInterface.reduce_sum (firstn (to - from) (skipn from dataArray))))
    (double (Z.of_nat (to - from))).

Definition isMusic64 (dataArray : list Byte.byte) : bool :=
  PrimFloat.ltb (double 100) (band64 10 50 dataArray)
  && PrimFloat.ltb (double 80) (band64 50 100 dataArray)
  && PrimFloat.ltb (double 60) (band64 0 10 dataArray).

(** The sums of the three slices. *)
Definition low_sum (dataArray : list Byte.byte) : Z :=
  GawinVoiceInterface.reduce_sum (firstn 10 dataArray).
Definition mid_sum (dataArray : list Byte.byte) : Z :=
  GawinVoiceInterface.reduce_sum (firstn 40 (skipn 10 dataArray)).
Definition high_sum (dataArray : list Byte.byte) : Z :=
  GawinVoiceInterface.reduce_sum (firstn 50 (skipn 50 dataArray)).

(** The test [total / n > threshold] in binary64 against the same test on
    integers. *)
Definition band_test_agrees (n threshold total : Z) : bool :=
  Bool.eqb (PrimFloat.ltb (double threshold) (PrimFloat.div (double total) (double n)))
           (Z.ltb (threshold * n) total).

(* ------------------------------------------------------------------ *)
(** ** The ice cube ([components/gawin-ice-cube.tsx]) *)

Module GawinIceCube.

(** What [===] compares in the frame callback: a string, or an object
    known by its identity. *)
Inductive js_value : Type :=
| JsString (s : jsstring)
| JsObject (identity : nat).

Definition strict_equals (a b : js_value) : bool :=
  match a, b with
  | JsString s, JsString t => jsstring_eqb s t
  | JsObject i, JsObject j => Nat.eqb i j
  | _, _ => false
  end.

Record Mesh : Type := {
  scale : Q;
  rotation_x : Q;
  rotation_y : Q;
  rotation_z : Q
}.

Definition rotationSpeed (state : VoiceState) : Q :=
  match state with
  | listening => 1 # 100
  | processing => 2 # 100
  | speaking => 3 # 100
  | idle => 5 # 1000
  end.

Definition color (state : VoiceState) : jsstring :=
  match state with
  | listening => str "#60a5fa"
  | processing => str "#f59e0b"
  | speaking => str "#10b981"
  | idle => str "#e5e7eb"
  end.

(** The callback given to [useFrame] by a cube rendered with the prop
    [voice].  Its parameter is named [state] as the prop is, so inside it
    [state] is the root state object react-three-fiber passes, known here by
    its identity; [sine] is the value of
    [Math.sin(state.clock.elapsedTime * 2)]. *)
Definition useFrame (voice : VoiceState) (state : nat) (sine : Q)
                    (meshRef : option Mesh) : option Mesh :=
  match meshRef with
  | Some mesh =>
      let breathingScale := 1 + sine * (5 # 100) in
      let stateScale :=
        if strict_equals (JsObject state) (JsString (str "listening")) then 11 # 10
        else if strict_equals (JsObject state) (JsString (str "speaking")) then 105 # 100
        else 1 in
      Some {| scale := breathingScale * stateScale;
              rotation_x := rotation_x mesh + rotationSpeed voice;
              rotation_y := rotation_y mesh + rotationSpeed voice * (7 # 10);
              rotation_z := rotation_z mesh + rotationSpeed voice * (3 # 10) |}
  | None => None
  end.

End GawinIceCube.

(* ------------------------------------------------------------------ *)
(** ** The ripples of the sphere ([components/ai-voice-sphere.tsx])

    The component keeps the list [ripples], an interval of 800 ms set while
    the prop [state] is [listening], and a timeout of 1500 ms set while there
    is a ripple.  A timer is known by the time it is due.  One step is a
    render with a new prop, or the run of a timer callback, together with
    the render it causes and the effects of that render. *)

Module AIVoiceSphere.

Record Sphere : Type := {
  state : VoiceState;
  ripples : list Z;
  interval : option Z;
  timeout : option Z
}.

(** The effect with the dependency [ripples]: the cleanup of its previous
    run clears the timeout, and a new one is set when there is a ripple. *)
Definition ripples_effect (now : Z) (s : Sphere) : Sphere :=
  {| state := state s; ripples := ripples s; interval := interval s;
     timeout := match ripples s with
                | [] => None
                | _ :: _ => Some (now + 1500)%Z
                end |}.

(** [setRipples(f)]: every update makes a new array, so the render that
    follows runs the effect on [ripples] again. *)
Definition setRipples (now : Z) (f : list Z -> list Z) (s : Sphere) : Sphere :=
  ripples_effect now
    {| state := state s; ripples := f (ripples s);
       interval := interval s; timeout := timeout s |}.

(** The body of the effect with the dependency [state]. *)
Definition state_effect (now : Z) (s : Sphere) : Sphere :=
  if VoiceState_eqb (state s) listening
  then {| state := state s; ripples := ripples s;
          interval := Some (now + 800)%Z; timeout := timeout s |}
  else setRipples now (fun _ => []) s.

Definition mount (now : Z) (v : VoiceState) : Sphere :=
  ripples_effect now
    (state_effect now
       {| state := v; ripples := []; interval := None; timeout := None |}).

(** The cleanup of the effect on [state]: there is one when the effect set
    the interval, and it clears it. *)
Definition state_cleanup (s : Sphere) : Sphere :=
  if VoiceState_eqb (state s) listening
  then {| state := state s; ripples := ripples s;
          interval := None; timeout := timeout s |}
  else s.

(** A render with the prop [v]: when it differs from the last one, the
    effect on [state] is cleaned up and runs again. *)
Definition render (now : Z) (v : VoiceState) (s : Sphere) : Sphere :=
  if VoiceState_eqb v (state s) then s
  else
    let s' := state_cleanup s in
    state_effect now
      {| state := v; ripples := ripples s';
         interval := interval s'; timeout := timeout s' |}.

(** The interval's callback, [setRipples((prev) => [...prev, Date.now()])];
    the interval is due again 800 ms later. *)
Definition interval_callback (now : Z) (s : Sphere) : Sphere :=
  setRipples now (fun prev => prev ++ [now])
    {| state := state s; ripples := ripples s;
       interval := Some (now + 800)%Z; timeout := timeout s |}.

(** The timeout's callback, [setRipples((prev) => prev.slice(1))]. *)
Definition timeout_callback (now : Z) (s : Sphere) : Sphere :=
  setRipples now (fun prev => tl prev)
    {| state := state s; ripples := ripples s;
       interval := interval s; timeout := None |}.

(** The event loop at the time [now]: of the timers that are due, the one
    due first runs. *)
Definition timer (now : Z) (s : Sphere) : Sphere :=
  match interval s, timeout s with
  | Some i, Some d =>
      if Z.ltb d i
      then (if Z.leb d now then timeout_callback now s else s)
      else (if Z.leb i now then interval_callback now s else s)
  | Some i, None => if Z.leb i now then interval_callback now s else s
  | None, Some d => if Z.leb d now then timeout_callback now s else s
  | None, None => s
  end.

Inductive Event : Type :=
| Render (now : Z) (v : VoiceState)
| Timer (now : Z).

Definition step (s : Sphere) (e : Event) : Sphere :=
  match e with
  | Render now v => render now v s
  | Timer now => timer now s
  end.

Definition run (es : list Event) (s : Sphere) : Sphere := fold_left step es s.

End AIVoiceSphere.

(** What holds of the sphere after every step: the interval is set exactly
    while the prop is [listening], the timeout exactly while there is a
    ripple, and then the interval is due before the timeout. *)
Definition sphere_invariant (s : AIVoiceSphere.Sphere) : Prop :=
  match AIVoiceSphere.interval s with
  | Some i =>
      AIVoiceSphere.state s = listening
      /\ match AIVoiceSphere.timeout s with
         | Some d => (i < d)%Z /\ AIVoiceSphere.ripples s <> []
         | None => AIVoiceSphere.ripples s = []
         end
  | None =>
      AIVoiceSphere.state s <> listening
      /\ AIVoiceSphere.ripples s = [] /\ AIVoiceSphere.timeout s = None
  end.

Definition is_prefix (a b : list Z) : Prop := exists k, b = a ++ k.

(** The times at which an interval set at [t] fires, when it fires on
    time. *)
Fixpoint ticks (t : Z) (n : nat) : list Z :=
  match n with
  | O => []
  | S k => (t + 800)%Z :: ticks (t + 800) k
  end.

(* ------------------------------------------------------------------ *)
(** * Properties *)

(** ** [JSON.parse] does not run out of fuel

    Every nested call of the parser is made on a text that got shorter, so
    the fuel [parse_fuel] hands out is never used up: a [None] of
    [JSON_parse] is a syntax error. *)

Section ParserFuel.

Local Open Scope nat_scope.

Lemma skip_ws_length (s : jsstring) : length (skip_ws s) <= length s.
Proof.
  induction s as [|c r IH]; simpl; [lia|].
  destruct (is_ws c); simpl; lia.
Qed.

Lemma span_digits_length (s : jsstring) :
  length (snd (span_digits s)) <= length s.
Proof.
  induction s as [|c r IH]; simpl; [lia|].
  destruct (is_digit c); simpl; [|lia].
  destruct (span_digits r); simpl in *; lia.
Qed.

Lemma strip_prefix_length (p s r : jsstring) :
  strip_prefix p s = Some r -> length r + length p = length s.
Proof.
  revert s. induction p as [|a p IH]; intros [|b s] H; simpl in *; try congruence.
  - inversion H; subst; simpl; lia.
  - inversion H; subst; simpl; lia.
  - destruct (N.eqb a b); [|discriminate]. apply IH in H. lia.
Qed.

Lemma parse_string_body_length (s t r : jsstring) :
  parse_string_body s = Some (t, r) -> length r < length s.
Proof.
  remember (length s) as n eqn:Hn. revert s t r Hn.
  induction n as [n IH] using lt_wf_ind. intros s t r Hn H.
  destruct s as [|c s]; [discriminate|]. simpl in H.
  destruct (N.eqb c 34).
  { inversion H; subst; simpl; lia. }
  destruct (N.eqb c 92).
  { destruct s as [|e s1]; [discriminate|].
    destruct (N.eqb e 117).
    - destruct s1 as [|h1 [|h2 [|h3 [|h4 s2]]]]; try discriminate.
      destruct (hex4 h1 h2 h3 h4); [|discriminate].
      destruct (parse_string_body s2) as [[t' r']|] eqn:E; [|discriminate].
      inversion H; subst.
      apply (IH (length s2)) in E; simpl in *; try lia.
    - destruct (simple_escape e); [|discriminate].
      destruct (parse_string_body s1) as [[t' r']|] eqn:E; [|discriminate].
      inversion H; subst.
      apply (IH (length s1)) in E; simpl in *; try lia. }
  destruct (N.ltb c 32); [discriminate|].
  destruct (parse_string_body s) as [[t' r']|] eqn:E; [|discriminate].
  inversion H; subst.
  apply (IH (length s)) in E; simpl in *; try lia.
Qed.

Lemma span_digits_rest (s d r : jsstring) :
  span_digits s = (d, r) -> length r <= length s.
Proof.
  intros H. pose proof (span_digits_length s) as L. now rewrite H in L.
Qed.

Lemma parse_int_part_length (s i r : jsstring) :
  parse_int_part s = Some (i, r) -> length r < length s.
Proof.
  unfold parse_int_part. destruct s as [|c s]; [discriminate|].
  destruct (N.eqb c 48).
  - intros H; inversion H; subst; simpl; lia.
  - destruct (is_digit c); [|discriminate].
    destruct (span_digits s) as [d r'] eqn:E. apply span_digits_rest in E.
    intros H; inversion H; subst; simpl; lia.
Qed.

Lemma parse_frac_part_length (s f r : jsstring) :
  parse_frac_part s = Some (f, r) -> length r <= length s.
Proof.
  unfold parse_frac_part. destruct s as [|c s].
  - intros H; inversion H; subst; simpl; lia.
  - destruct (N.eqb c 46).
    + destruct (span_digits s) as [d r'] eqn:E. apply span_digits_rest in E.
      destruct d; [discriminate|].
      intros H; inversion H; subst; simpl; lia.
    + intros H; inversion H; subst; simpl; lia.
Qed.

Lemma parse_exp_part_length (s e r : jsstring) :
  parse_exp_part s = Some (e, r) -> length r <= length s.
Proof.
  unfold parse_exp_part. destruct s as [|c s].
  - intros H; inversion H; subst; simpl; lia.
  - destruct (N.eqb c 101 || N.eqb c 69).
    + destruct s as [|g s'].
      * simpl. discriminate.
      * destruct (N.eqb g 43 || N.eqb g 45).
        -- destruct (span_digits s') as [d r'] eqn:E. apply span_digits_rest in E.
           destruct d; [discriminate|].
           intros H; inversion H; subst; simpl; lia.
        -- destruct (span_digits (g :: s')) as [d r'] eqn:E.
           apply span_digits_rest in E.
           destruct d; [discriminate|].
           intros H; inversion H; subst; simpl in *; lia.
    + intros H; inversion H; subst; simpl; lia.
Qed.

Lemma parse_number_length (s lexeme r : jsstring) :
  parse_number s = Some (lexeme, r) -> length r < length s.
Proof.
  unfold parse_number.
  set (start := match s with
                | c :: r0 => if N.eqb c 45 then ([c], r0) else ([], s)
                | [] => ([], s)
                end).
  assert (L : length (snd start) <= length s).
  { subst start. destruct s as [|c s]; simpl; [lia|].
    destruct (N.eqb c 45); simpl; lia. }
  destruct start as [sign s0]. simpl in L.
  destruct (parse_int_part s0) as [[i s1]|] eqn:E1; [|discriminate].
  destruct (parse_frac_part s1) as [[f s2]|] eqn:E2; [|discriminate].
  destruct (parse_exp_part s2) as [[e s3]|] eqn:E3; [|discriminate].
  apply parse_int_part_length in E1. apply parse_frac_part_length in E2.
  apply parse_exp_part_length in E3.
  intros H; inversion H; subst. lia.
Qed.

Lemma parse_keyword_length (kw : string) (v w : json) (s r : jsstring) :
  kw <> EmptyString ->
  parse_keyword kw v s = Ok w r -> length r < length s.
Proof.
  unfold parse_keyword. intros Hkw.
  destruct (strip_prefix (str kw) s) as [r'|] eqn:E; [|discriminate].
  intros H; inversion H; subst. apply strip_prefix_length in E.
  destruct kw; [congruence|]. simpl in E. lia.
Qed.

Lemma parse_keyword_fuel (kw : string) (v : json) (s : jsstring) :
  parse_keyword kw v s <> OutOfFuel.
Proof. unfold parse_keyword. destruct (strip_prefix (str kw) s); discriminate. Qed.

Lemma parse_fuel_enough (f : nat) :
  (forall s, 2 * length s + 2 <= f ->
     parse_value f s <> OutOfFuel /\
     forall v r, parse_value f s = Ok v r -> length r < length s) /\
  (forall s, 2 * length s + 3 <= f ->
     parse_elements f s <> OutOfFuel /\
     forall v r, parse_elements f s = Ok v r -> length r < length s) /\
  (forall s, 2 * length s + 3 <= f ->
     parse_members f s <> OutOfFuel /\
     forall v r, parse_members f s = Ok v r -> length r < length s).
Proof.
  induction f as [|f (IHv & IHe & IHm)].
  { repeat split; intros; lia. }
  split; [|split].
  - intros s Hf. cbn [parse_value].
    pose proof (skip_ws_length s) as Hs.
    destruct (skip_ws s) as [|c r] eqn:Es; [split; [discriminate|intros; discriminate]|].
    simpl in Hs.
    destruct (N.eqb c 123).
    { pose proof (skip_ws_length r) as Hr.
      destruct (skip_ws r) as [|d r'] eqn:Er; [split; [discriminate|intros; discriminate]|].
      simpl in Hr.
      destruct (N.eqb d 125).
      { split; [discriminate|]. intros v r0 H; inversion H; subst; lia. }
      destruct (IHm (d :: r')) as [Hne Hlen]; [simpl; lia|].
      destruct (parse_members f (d :: r')) as [ms rest| |] eqn:E.
      - split; [discriminate|]. intros v r0 H; inversion H; subst.
        specialize (Hlen _ _ eq_refl). simpl in Hlen. lia.
      - split; [discriminate|intros; discriminate].
      - congruence. }
    destruct (N.eqb c 91).
    { pose proof (skip_ws_length r) as Hr.
      destruct (skip_ws r) as [|d r'] eqn:Er; [split; [discriminate|intros; discriminate]|].
      simpl in Hr.
      destruct (N.eqb d 93).
      { split; [discriminate|]. intros v r0 H; inversion H; subst; lia. }
      destruct (IHe r) as [Hne Hlen]; [lia|].
      destruct (parse_elements f r) as [es rest| |] eqn:E.
      - split; [discriminate|]. intros v r0 H; inversion H; subst.
        specialize (Hlen _ _ eq_refl). lia.
      - split; [discriminate|intros; discriminate].
      - congruence. }
    destruct (N.eqb c 34).
    { destruct (parse_string_body r) as [[t rest]|] eqn:E.
      - apply parse_string_body_length in E.
        split; [discriminate|]. intros v r0 H; inversion H; subst; lia.
      - split; [discriminate|intros; discriminate]. }
    destruct (N.eqb c 116).
    { split; [apply parse_keyword_fuel|]. intros v r0 H.
      apply parse_keyword_length in H; [simpl in H; lia|discriminate]. }
    destruct (N.eqb c 102).
    { split; [apply parse_keyword_fuel|]. intros v r0 H.
      apply parse_keyword_length in H; [simpl in H; lia|discriminate]. }
    destruct (N.eqb c 110).
    { split; [apply parse_keyword_fuel|]. intros v r0 H.
      apply parse_keyword_length in H; [simpl in H; lia|discriminate]. }
    destruct (parse_number (c :: r)) as [[lexeme rest]|] eqn:E.
    + apply parse_number_length in E. simpl in E.
      split; [discriminate|]. intros v r0 H; inversion H; subst; lia.
    + split; [discriminate|intros; discriminate].
  - intros s Hf. cbn [parse_elements].
    destruct (IHv s) as [Hne Hlen]; [lia|].
    destruct (parse_value f s) as [v rest| |] eqn:E;
      [|split; [discriminate|intros; discriminate]|congruence].
    specialize (Hlen _ _ eq_refl).
    pose proof (skip_ws_length rest) as Hr.
    destruct (skip_ws rest) as [|d r'] eqn:Er; [split; [discriminate|intros; discriminate]|].
    simpl in Hr.
    destruct (N.eqb d 93).
    { split; [discriminate|]. intros w r0 H; inversion H; subst; lia. }
    destruct (N.eqb d 44); [|split; [discriminate|intros; discriminate]].
    destruct (IHe r') as [Hne' Hlen']; [lia|].
    destruct (parse_elements f r') as [vs rest'| |] eqn:E'.
    + split; [discriminate|]. intros w r0 H; inversion H; subst.
      specialize (Hlen' _ _ eq_refl). lia.
    + split; [discriminate|intros; discriminate].
    + congruence.
  - intros s Hf. cbn [parse_members].
    destruct s as [|q r]; [split; [discriminate|intros; discriminate]|].
    simpl in Hf.
    destruct (N.eqb q 34); [|split; [discriminate|intros; discriminate]].
    destruct (parse_string_body r) as [[k r1]|] eqn:Ek;
      [|split; [discriminate|intros; discriminate]].
    apply parse_string_body_length in Ek.
    pose proof (skip_ws_length r1) as Hr1.
    destruct (skip_ws r1) as [|colon r2] eqn:Er1; [split; [discriminate|intros; discriminate]|].
    simpl in Hr1.
    destruct (N.eqb colon 58); [|split; [discriminate|intros; discriminate]].
    destruct (IHv r2) as [Hne Hlen]; [lia|].
    destruct (parse_value f r2) as [v rest| |] eqn:E;
      [|split; [discriminate|intros; discriminate]|congruence].
    specialize (Hlen _ _ eq_refl).
    pose proof (skip_ws_length rest) as Hr.
    destruct (skip_ws rest) as [|d r'] eqn:Er; [split; [discriminate|intros; discriminate]|].
    simpl in Hr.
    destruct (N.eqb d 125).
    { split; [discriminate|]. intros w r0 H; inversion H; subst; simpl; lia. }
    destruct (N.eqb d 44); [|split; [discriminate|intros; discriminate]].
    pose proof (skip_ws_length r') as Hr'.
    destruct (IHm (skip_ws r')) as [Hne' Hlen']; [lia|].
    destruct (parse_members f (skip_ws r')) as [ms rest'| |] eqn:E'.
    + split; [discriminate|]. intros w r0 H; inversion H; subst.
      specialize (Hlen' _ _ eq_refl). simpl. lia.
    + split; [discriminate|intros; discriminate].
    + congruence.
Qed.

(** [JSON_parse] never fails for lack of fuel. *)
Lemma JSON_parse_fuel (s : jsstring) : parse_value (parse_fuel s) s <> OutOfFuel.
Proof.
  apply (proj1 (parse_fuel_enough (parse_fuel s))). unfold parse_fuel. lia.
Qed.

End ParserFuel.

(** ** Lines *)

Lemma split_lines_nonempty (s : jsstring) : split_lines s <> [].
Proof.
  destruct s as [|c r]; simpl; [discriminate|].
  destruct (N.eqb c NL); [discriminate|].
  destruct (split_lines r); discriminate.
Qed.

Lemma split_lines_single (l : jsstring) :
  no_newline l -> split_lines l = [l].
Proof.
  unfold no_newline. induction l as [|c l IH]; intros H; simpl; [reflexivity|].
  destruct (N.eqb_spec c NL) as [->|_].
  - exfalso. apply H. now left.
  - rewrite IH; [reflexivity|]. intros Hin. apply H. now right.
Qed.

Lemma split_lines_cons_line (l r : jsstring) :
  no_newline l -> split_lines (l ++ NL :: r) = l :: split_lines r.
Proof.
  unfold no_newline. induction l as [|c l IH]; intros H; simpl.
  - reflexivity.
  - destruct (N.eqb_spec c NL) as [->|_].
    + exfalso. apply H. now left.
    + rewrite IH; [reflexivity|]. intros Hin. apply H. now right.
Qed.

Lemma split_lines_join (l : jsstring) (ls : list jsstring) :
  Forall no_newline (l :: ls) -> split_lines (join NL (l :: ls)) = l :: ls.
Proof.
  revert l. induction ls as [|l' ls IH]; intros l H.
  - simpl. apply split_lines_single. now inversion H.
  - change (join NL (l :: l' :: ls)) with (l ++ NL :: join NL (l' :: ls)).
    inversion H as [|? ? Hl Hrest]; subst.
    rewrite split_lines_cons_line by assumption.
    now rewrite IH.
Qed.

Lemma split_lines_no_newline (s : jsstring) : Forall no_newline (split_lines s).
Proof.
  induction s as [|c r IH]; simpl.
  - constructor; [intros []|constructor].
  - destruct (N.eqb_spec c NL) as [->|Hc].
    + constructor; [intros []|assumption].
    + destruct (split_lines r) as [|l ls]; [repeat constructor; intros [E|[]]; congruence|].
      inversion IH as [|? ? Hl Hls]; subst. constructor; [|assumption].
      intros [E|Hin]; [congruence|now apply Hl].
Qed.

Lemma join_split_lines (s : jsstring) : join NL (split_lines s) = s.
Proof.
  induction s as [|c r IH]; simpl; [reflexivity|].
  destruct (N.eqb_spec c NL) as [->|Hc].
  - pose proof (split_lines_nonempty r) as Hne.
    destruct (split_lines r) as [|l ls] eqn:E; [congruence|].
    change (join NL ([] :: l :: ls)) with (NL :: join NL (l :: ls)).
    now rewrite IH.
  - destruct (split_lines r) as [|l ls] eqn:E;
      [now elim (split_lines_nonempty r)|].
    destruct ls as [|l' ls']; simpl in IH |- *; now rewrite <- IH.
Qed.

Lemma Forall_no_newline_filter (f : jsstring -> bool) (ls : list jsstring) :
  Forall no_newline ls -> Forall no_newline (filter f ls).
Proof.
  intros H. apply Forall_forall. intros x Hx.
  apply filter_In in Hx. destruct Hx as [Hx _].
  revert x Hx. now apply Forall_forall.
Qed.

(** ** The read loop adds text chunk by chunk, line by line *)

Section ReadLoopFacts.

Variable host : NumberHost.

Lemma line_step_appends (a line : jsstring) :
  line_step host a line = a ++ frame_text host line.
Proof.
  unfold frame_text, line_step.
  destruct (startsWith (str "0:") line); [|now rewrite app_nil_r].
  destruct (JSON_parse (slice 2 line)) as [data|]; [|now rewrite app_nil_r].
  destruct (get_content data) as [v| |]; try now rewrite app_nil_r.
  destruct (ToBoolean host v); [|now rewrite app_nil_r].
  destruct (ToString host v); [reflexivity|now rewrite app_nil_r].
Qed.

Lemma fold_line_step (ls : list jsstring) (a : jsstring) :
  fold_left (line_step host) ls a = a ++ concat (map (frame_text host) ls).
Proof.
  revert a. induction ls as [|l ls IH]; intros a; simpl.
  - now rewrite app_nil_r.
  - now rewrite IH, line_step_appends, app_assoc.
Qed.

Lemma chunk_step_appends (a chunk : jsstring) :
  chunk_step host a chunk = a ++ chunk_text host chunk.
Proof. apply fold_line_step. Qed.

Lemma fold_chunk_step (cs : list jsstring) (a : jsstring) :
  fold_left (chunk_step host) cs a = a ++ concat (map (chunk_text host) cs).
Proof.
  revert a. induction cs as [|c cs IH]; intros a; simpl.
  - now rewrite app_nil_r.
  - now rewrite IH, chunk_step_appends, app_assoc.
Qed.

Lemma read_loop_chunkwise (cs : list jsstring) :
  read_loop host cs = concat (map (chunk_text host) cs).
Proof. apply (fold_chunk_step cs []). Qed.

Lemma read_loop_app (cs1 cs2 : list jsstring) :
  read_loop host (cs1 ++ cs2) = read_loop host cs1 ++ read_loop host cs2.
Proof. now rewrite !read_loop_chunkwise, map_app, concat_app. Qed.

Lemma read_loop_lines (cs : list jsstring) :
  read_loop host cs = concat (map (frame_text host) (lines_read cs)).
Proof.
  rewrite read_loop_chunkwise. unfold lines_read, chunk_text.
  induction cs as [|c cs IH]; simpl; [reflexivity|].
  now rewrite IH, map_app, concat_app.
Qed.

Lemma frame_text_no_prefix (line : jsstring) :
  startsWith (str "0:") line = false -> frame_text host line = [].
Proof. unfold frame_text, line_step. now intros ->. Qed.


Lemma frame_text_blank : frame_text host [] = [].
Proof. reflexivity. Qed.

(** Lines that add nothing can be left out. *)
Lemma concat_frame_text_filter (keep : jsstring -> bool) (ls : list jsstring) :
  (forall l, In l ls -> keep l = false -> frame_text host l = []) ->
  concat (map (frame_text host) (filter keep ls)) =
  concat (map (frame_text host) ls).
Proof.
  induction ls as [|l ls IH]; intros H; simpl; [reflexivity|].
  destruct (keep l) eqn:E; simpl.
  - rewrite IH; [reflexivity|]. intros x Hx. apply H. now right.
  - rewrite (H l (or_introl eq_refl) E). simpl.
    apply IH. intros x Hx. apply H. now right.
Qed.

(** A chunk made of whole lines adds what its lines add. *)
Lemma chunk_text_join (ls : list jsstring) :
  Forall no_newline ls ->
  chunk_text host (join NL ls) = concat (map (frame_text host) ls).
Proof.
  intros H. unfold chunk_text. destruct ls as [|l ls].
  - reflexivity.
  - now rewrite split_lines_join.
Qed.

End ReadLoopFacts.

(** ** Content frames cut in two *)

Lemma literal_body_step (c : N) (body : jsstring) :
  literal_body (c :: body) ->
  c <> QUOTE /\
  ((c = BACKSLASH /\ exists e rest, body = e :: rest /\
      ((e = 117%N /\ exists h1 h2 h3 h4 rest', rest = h1 :: h2 :: h3 :: h4 :: rest'
           /\ hex4 h1 h2 h3 h4 <> None /\ literal_body rest')
       \/ (e <> 117%N /\ simple_escape e <> None /\ literal_body rest)))
   \/ (c <> BACKSLASH /\ literal_body body)).
Proof.
  intros [text H]. simpl in H. unfold QUOTE, BACKSLASH in *.
  destruct (N.eqb_spec c 34) as [->|Hq].
  { exfalso. inversion H as [[E1 E2]]. destruct body; discriminate. }
  split; [assumption|].
  destruct (N.eqb_spec c 92) as [->|Hb].
  - left. split; [reflexivity|].
    destruct body as [|e rest]; [simpl in H; discriminate|].
    exists e, rest. split; [reflexivity|]. simpl in H.
    destruct (N.eqb_spec e 117) as [->|He].
    + left. split; [reflexivity|].
      destruct rest as [|h1 [|h2 [|h3 [|h4 rest']]]]; simpl in H; try discriminate.
      { exfalso. unfold hex4 in H.
        destruct (hex_value h1), (hex_value h2), (hex_value h3); discriminate. }
      exists h1, h2, h3, h4, rest'. split; [reflexivity|].
      destruct (hex4 h1 h2 h3 h4); [|discriminate]. split; [discriminate|].
      destruct (parse_string_body (rest' ++ [34%N])) as [[t r]|] eqn:E; [|discriminate].
      inversion H; subst. now exists t.
    + right. split; [assumption|].
      destruct (simple_escape e); [|discriminate]. split; [discriminate|].
      destruct (parse_string_body (rest ++ [34%N])) as [[t r]|] eqn:E; [|discriminate].
      inversion H; subst. now exists t.
  - right. split; [assumption|].
    destruct (N.ltb c 32); [discriminate|].
    destruct (parse_string_body (body ++ [34%N])) as [[t r]|] eqn:E; [|discriminate].
    inversion H; subst. now exists t.
Qed.

Lemma hex4_digits (h1 h2 h3 h4 : N) :
  hex4 h1 h2 h3 h4 <> None ->
  hex_value h1 <> None /\ hex_value h2 <> None /\
  hex_value h3 <> None /\ hex_value h4 <> None.
Proof.
  unfold hex4.
  destruct (hex_value h1), (hex_value h2), (hex_value h3), (hex_value h4);
    intros H; repeat split; congruence.
Qed.

Lemma hex_value_quote : hex_value QUOTE = None.
Proof. reflexivity. Qed.

(** A literal cut before its closing quote is not terminated. *)
Lemma literal_prefix_unterminated (body : jsstring) :
  literal_body body ->
  forall p q, body = p ++ q -> parse_string_body p = None.
Proof.
  remember (length body) as n eqn:Hn. revert body Hn.
  induction n as [n IH] using lt_wf_ind. intros body Hn Hbody p q E.
  destruct p as [|c p]; [reflexivity|].
  destruct body as [|c' body]; [discriminate|].
  simpl in E. injection E as E1 E. subst c'.
  apply literal_body_step in Hbody.
  destruct Hbody as [Hq [[-> (e & rest & -> & Hrest)]|[Hb Hrest]]].
  - simpl. destruct p as [|e' p]; [reflexivity|].
    simpl in E. injection E as E1 E. subst e'.
    destruct Hrest as [[-> (h1 & h2 & h3 & h4 & rest' & -> & Hhex & Hl)]
                      |(He & Hesc & Hl)].
    + simpl.
      destruct p as [|a1 [|a2 [|a3 [|a4 p]]]]; try reflexivity.
      simpl in E. injection E as E1 E2 E3 E4 E. subst a1 a2 a3 a4.
      destruct (hex4 h1 h2 h3 h4); [|congruence].
      rewrite (IH (length rest')) with (body := rest') (q := q);
        simpl in *; try lia; auto.
    + destruct (N.eqb_spec e 117); [congruence|].
      destruct (simple_escape e); [|congruence].
      rewrite (IH (length rest)) with (body := rest) (q := q);
        simpl in *; try lia; auto.
  - simpl. unfold QUOTE, BACKSLASH in *.
    destruct (N.eqb_spec c 34); [congruence|].
    destruct (N.eqb_spec c 92); [congruence|].
    destruct (N.ltb c 32); [reflexivity|].
    rewrite (IH (length body)) with (body := body) (q := q);
      simpl in *; try lia; auto.
Qed.

(** Inside a literal every quote follows a backslash. *)
Lemma literal_quote_escaped (body : jsstring) :
  literal_body body ->
  forall x y, body = x ++ QUOTE :: y -> exists x0, x = x0 ++ [BACKSLASH].
Proof.
  remember (length body) as n eqn:Hn. revert body Hn.
  induction n as [n IH] using lt_wf_ind. intros body Hn Hbody x y E.
  destruct body as [|c body]; [destruct x; discriminate|].
  apply literal_body_step in Hbody.
  destruct Hbody as [Hq Hcases].
  destruct x as [|c' x]; simpl in E; injection E as E1 E; [congruence|subst c'].
  destruct Hcases as [[-> (e & rest & -> & Hrest)]|[Hb Hl]].
  - destruct x as [|e' x]; simpl in E; injection E as E1 E.
    { exists []. reflexivity. }
    subst e'.
    destruct Hrest as [[-> (h1 & h2 & h3 & h4 & rest' & -> & Hhex & Hl)]
                      |(He & Hesc & Hl)].
    + apply hex4_digits in Hhex. destruct Hhex as (H1 & H2 & H3 & H4).
      destruct x as [|a1 [|a2 [|a3 [|a4 x]]]]; simpl in E.
      * exfalso. injection E as E1 _. apply H1. rewrite E1. apply hex_value_quote.
      * exfalso. injection E as _ E2 _. apply H2. rewrite E2. apply hex_value_quote.
      * exfalso. injection E as _ _ E3 _. apply H3. rewrite E3. apply hex_value_quote.
      * exfalso. injection E as _ _ _ E4 _. apply H4. rewrite E4. apply hex_value_quote.
      * injection E as E1 E2 E3 E4 E.
        destruct (IH (length rest')) with (body := rest') (x := x) (y := y)
          as [x0 ->]; simpl in *; try lia; auto.
        exists (BACKSLASH :: 117%N :: a1 :: a2 :: a3 :: a4 :: x0). reflexivity.
    + destruct (IH (length rest)) with (body := rest) (x := x) (y := y)
        as [x0 ->]; simpl in *; try lia; auto.
      exists (BACKSLASH :: e :: x0). reflexivity.
  - destruct (IH (length body)) with (body := body) (x := x) (y := y)
      as [x0 ->]; simpl in *; try lia; auto.
    exists (c :: x0). reflexivity.
Qed.

Lemma skip_ws_spec (s : jsstring) :
  exists w, s = w ++ skip_ws s /\ Forall (fun c => is_ws c = true) w.
Proof.
  induction s as [|c r (w & E & Hw)]; simpl.
  - exists []. split; [reflexivity|constructor].
  - destruct (is_ws c) eqn:Hc.
    + exists (c :: w). split; [simpl; now f_equal|now constructor].
    + exists []. split; [reflexivity|constructor].
Qed.

Lemma skip_ws_head (s r : jsstring) (c : N) :
  skip_ws s = c :: r -> is_ws c = false.
Proof.
  induction s as [|a s IH]; simpl; [discriminate|].
  destruct (is_ws a) eqn:Ha; [assumption|].
  intros H; inversion H; subst. assumption.
Qed.

(** The text of an object whose first member is [content], cut before the
    value's closing quote or right after it, does not parse. *)
Lemma object_header_unterminated (k : nat) (p : jsstring) :
  parse_string_body p = None \/ (exists t, parse_string_body p = Some (t, [])) ->
  parse_value (S (S (S k))) (object_header ++ p) = SyntaxError.
Proof.
  intros [H|[t H]]; simpl; rewrite H; reflexivity.
Qed.

Lemma JSON_parse_object_header (p : jsstring) :
  parse_string_body p = None \/ (exists t, parse_string_body p = Some (t, [])) ->
  JSON_parse (object_header ++ p) = None.
Proof.
  intros H. unfold JSON_parse.
  destruct (parse_fuel (object_header ++ p)) as [|[|[|k]]] eqn:F;
    try (unfold parse_fuel in F; rewrite length_app in F; simpl in F; lia).
  now rewrite object_header_unterminated.
Qed.

Section Fragments.

Variable host : NumberHost.

Lemma frame_text_header_prefix (n : nat) :
  frame_text host (firstn n frame_header) = [].
Proof.
  do 15 (destruct n as [|n]; [vm_compute; reflexivity|]).
  vm_compute. reflexivity.
Qed.

Lemma frame_text_cut_in_value (p : jsstring) :
  parse_string_body p = None \/ (exists t, parse_string_body p = Some (t, [])) ->
  frame_text host (frame_header ++ p) = [].
Proof.
  intros H. unfold frame_text, line_step.
  change (startsWith (str "0:") (frame_header ++ p)) with true.
  change (slice 2 (frame_header ++ p)) with (object_header ++ p).
  now rewrite JSON_parse_object_header.
Qed.

End Fragments.

(** The last code unit of white space followed by an opening brace followed
    by white space is the brace or white space. *)
Lemma brace_then_blank_last (w1 w2 : jsstring) :
  Forall (fun c => is_ws c = true) w2 ->
  exists P0 x, w1 ++ 123%N :: w2 = P0 ++ [x] /\ (x = 123%N \/ is_ws x = true).
Proof.
  intros Hw2. destruct (exists_last (l := 123%N :: w2)) as (P1 & x & E);
    [discriminate|].
  exists (w1 ++ P1), x. split.
  - now rewrite <- app_assoc, <- E.
  - destruct w2 as [|a w2'].
    + left. destruct P1 as [|b P1]; simpl in E.
      * now inversion E.
      * inversion E as [[E1 E2]]. destruct P1; discriminate.
    + right.
      assert (In x (a :: w2')) as Hin.
      { assert (In x (123%N :: a :: w2')) as Hin'.
        { rewrite E. apply in_or_app. right. now left. }
        destruct Hin' as [<-|Hin']; [|assumption].
        exfalso. destruct P1 as [|b P1]; simpl in E; [discriminate|].
        inversion E as [[E1 E2]].
        assert (L : length (a :: w2') = length (P1 ++ [123%N])) by now rewrite E2.
        clear - E2 Hw2.
        assert (In 123%N (a :: w2')) as Hin by (rewrite E2; apply in_or_app; right; now left).
        rewrite Forall_forall in Hw2. specialize (Hw2 _ Hin). discriminate. }
      rewrite Forall_forall in Hw2. now apply Hw2.
Qed.

Lemma skip_ws_nonblank_tail (r : jsstring) (x : N) :
  is_ws x = false -> skip_ws (r ++ [x]) <> [].
Proof.
  intros Hx. induction r as [|c r IH]; simpl.
  - rewrite Hx. discriminate.
  - destruct (is_ws c); [assumption|discriminate].
Qed.

(** The text after a [0:] found inside a literal, up to the end of the
    frame, is never an object. *)
Lemma literal_suffix_not_object (body : jsstring) :
  literal_body body ->
  forall p q v, body = p ++ q ->
  JSON_parse (q ++ [QUOTE; 125%N]) = Some v -> forall ms, v <> JObject ms.
Proof.
  intros Hbody p q v E H ms ->. unfold JSON_parse in H.
  set (u := q ++ [QUOTE; 125%N]) in *.
  destruct (parse_fuel u) as [|k]; [discriminate|].
  cbn [parse_value] in H.
  destruct (skip_ws_spec u) as (w1 & Eu & Hw1).
  destruct (skip_ws u) as [|c r] eqn:Es; [discriminate|].
  destruct (N.eqb_spec c 123) as [->|Hc].
  - destruct (skip_ws_spec r) as (w2 & Er & Hw2).
    destruct (skip_ws r) as [|d r'] eqn:Esr; [discriminate|].
    assert (Eu' : u = (w1 ++ 123%N :: w2) ++ d :: r').
    { rewrite Eu, Er, <- app_assoc. reflexivity. }
    destruct (brace_then_blank_last w1 Hw2) as (P0 & x & EP & Hx).
    assert (Hx34 : x <> QUOTE).
    { destruct Hx as [->|Hx]; [discriminate|]. intros ->. discriminate. }
    assert (Hx92 : x <> BACKSLASH).
    { destruct Hx as [->|Hx]; [discriminate|]. intros ->. discriminate. }
    destruct (N.eqb_spec d 125) as [->|Hd].
    + (* the empty object: white space only may follow *)
      inversion H as [H']. clear H.
      destruct r' as [|a r'' _] using rev_ind.
      * exfalso. unfold u in Eu'. rewrite EP in Eu'.
        change (q ++ [QUOTE; 125%N]) with (q ++ [QUOTE] ++ [125%N]) in Eu'.
        rewrite app_assoc in Eu'.
        apply app_inj_tail in Eu'. destruct Eu' as [Eu' _].
        apply app_inj_tail in Eu'. destruct Eu' as [_ Eu']. congruence.
      * assert (a = 125%N).
        { unfold u in Eu'.
          change (q ++ [QUOTE; 125%N]) with (q ++ [QUOTE] ++ [125%N]) in Eu'.
          rewrite app_assoc in Eu'.
          change ((w1 ++ 123%N :: w2) ++ 125%N :: r'' ++ [a])
            with ((w1 ++ 123%N :: w2) ++ (125%N :: r'') ++ [a]) in Eu'.
          rewrite (app_assoc (w1 ++ 123%N :: w2)) in Eu'.
          apply app_inj_tail in Eu'. now destruct Eu'. }
        subst a.
        destruct (skip_ws (r'' ++ [125%N])) eqn:Ek; [|discriminate].
        exfalso. revert Ek. now apply skip_ws_nonblank_tail.
    + (* members: the first must open with a quote *)
      destruct k as [|k]; [discriminate|].
      cbn [parse_members] in H.
      destruct (N.eqb_spec d 34) as [->|Hd34]; [|discriminate].
      assert (r' = [125%N]) as ->.
      { unfold u in Eu'.
        apply app_eq_app in Eu'. destruct Eu' as (l & [[E1 E2]|[E1 E2]]).
        - (* the quote lies in [q] *)
          destruct l as [|a l]; simpl in E2.
          + inversion E2. reflexivity.
          + exfalso. inversion E2; subst a.
            assert (Eb : body = (p ++ w1 ++ 123%N :: w2) ++ QUOTE :: l).
            { rewrite E, E1, <- !app_assoc. reflexivity. }
            destruct (@literal_quote_escaped _ Hbody _ _ Eb) as (x0 & Ex0).
            rewrite EP, app_assoc in Ex0.
            apply app_inj_tail in Ex0. destruct Ex0 as [_ Ex0]. congruence.
        - destruct l as [|a l]; simpl in E2.
          + inversion E2. reflexivity.
          + exfalso. inversion E2 as [[Ea E2']].
            destruct l as [|c l]; simpl in E2'; [discriminate|].
            inversion E2' as [[Ec E2'']]. destruct l; discriminate. }
      simpl in H. discriminate.
  - (* not an object *)
    destruct (N.eqb c 91).
    { destruct (skip_ws r) as [|d r']; [discriminate|].
      destruct (N.eqb d 93).
      - destruct (skip_ws r'); discriminate.
      - destruct (parse_elements k r) as [es rest| |]; try discriminate.
        destruct (skip_ws rest); discriminate. }
    destruct (N.eqb c 34).
    { destruct (parse_string_body r) as [[t rest]|]; [|discriminate].
      destruct (skip_ws rest); discriminate. }
    unfold parse_keyword in H.
    destruct (N.eqb c 116).
    { destruct (strip_prefix (str "true") (c :: r)) as [rest|]; [|discriminate].
      destruct (skip_ws rest); discriminate. }
    destruct (N.eqb c 102).
    { destruct (strip_prefix (str "false") (c :: r)) as [rest|]; [|discriminate].
      destruct (skip_ws rest); discriminate. }
    destruct (N.eqb c 110).
    { destruct (strip_prefix (str "null") (c :: r)) as [rest|]; [|discriminate].
      destruct (skip_ws rest); discriminate. }
    destruct (parse_number (c :: r)) as [[lexeme rest]|]; [|discriminate].
    destruct (skip_ws rest); discriminate.
Qed.

Section CutFrames.

Variable host : NumberHost.

Lemma frame_text_not_object (line : jsstring) :
  (forall v, JSON_parse (slice 2 line) = Some v -> forall ms, v <> JObject ms) ->
  frame_text host line = [].
Proof.
  intros H. unfold frame_text, line_step.
  destruct (startsWith (str "0:") line); [|reflexivity].
  destruct (JSON_parse (slice 2 line)) as [v|] eqn:E; [|reflexivity].
  specialize (H v eq_refl).
  destruct v; try reflexivity. now elim (H members).
Qed.

Lemma frame_text_header_suffix (n : nat) (rest : jsstring) :
  (1 <= n <= 13)%nat ->
  frame_text host (skipn n frame_header ++ rest) = [].
Proof.
  intros Hn. apply frame_text_no_prefix.
  destruct n as [|n]; [lia|].
  do 13 (destruct n as [|n]; [reflexivity|]). lia.
Qed.

(** The end of a frame from somewhere inside its literal adds nothing. *)
Lemma frame_text_literal_suffix (body p q : jsstring) :
  literal_body body -> body = p ++ q ->
  frame_text host (q ++ [QUOTE; 125%N]) = [].
Proof.
  intros Hbody E.
  destruct q as [|c0 [|c1 q2]].
  - reflexivity.
  - apply frame_text_no_prefix. unfold startsWith. cbn -[N.eqb].
    destruct (N.eqb 48 c0); reflexivity.
  - destruct (startsWith (str "0:") ((c0 :: c1 :: q2) ++ [QUOTE; 125%N])) eqn:Hs;
      [|now apply frame_text_no_prefix].
    apply frame_text_not_object. intros v Hv.
    change (slice 2 ((c0 :: c1 :: q2) ++ [QUOTE; 125%N]))
      with (q2 ++ [QUOTE; 125%N]) in Hv.
    apply (@literal_suffix_not_object body Hbody (p ++ [c0; c1]) q2 v);
      [|assumption].
    rewrite E, <- app_assoc. reflexivity.
Qed.

(** A content frame cut in two: neither fragment passes the prefix-and-parse
    check. *)
Theorem cut_frame_fragments (body a b : jsstring) :
  literal_body body ->
  content_frame body = a ++ b -> a <> [] -> b <> [] ->
  frame_text host a = [] /\ frame_text host b = [].
Proof.
  intros Hbody E Ha Hb. unfold content_frame in E. symmetry in E.
  apply app_eq_app in E. destruct E as (l & [[E1 E2]|[E1 E2]]).
  - (* the cut is at or after the end of the header *)
    apply app_eq_app in E2. destruct E2 as (m & [[E3 E4]|[E3 E4]]).
    + subst a b. split.
      * apply frame_text_cut_in_value. left.
        now apply (@literal_prefix_unterminated body Hbody l m).
      * now apply (@frame_text_literal_suffix body l m).
    + destruct m as [|c0 [|c1 m]].
      * simpl in E4. subst b. rewrite app_nil_r in E3. subst a l. split.
        -- apply frame_text_cut_in_value. left.
           apply (@literal_prefix_unterminated body Hbody body []).
           now rewrite app_nil_r.
        -- reflexivity.
      * simpl in E4. injection E4 as E4 E5. subst a l c0 b. split.
        -- apply frame_text_cut_in_value. right. exact Hbody.
        -- reflexivity.
      * exfalso. simpl in E4. injection E4 as _ _ E4.
        destruct m; [|discriminate]. simpl in E4. now subst b.
  - (* the cut is inside the header *)
    assert (Hlen : (length a + length l = 14)%nat).
    { rewrite <- length_app, <- E1. reflexivity. }
    assert (Ea : a = firstn (length a) frame_header).
    { rewrite E1, firstn_app, firstn_all, Nat.sub_diag, firstn_O.
      now rewrite app_nil_r. }
    assert (El : l = skipn (length a) frame_header).
    { rewrite E1, skipn_app, skipn_all, Nat.sub_diag. reflexivity. }
    split.
    + rewrite Ea. apply frame_text_header_prefix.
    + subst b. destruct l as [|c l'] eqn:Dl.
      * simpl. now apply (@frame_text_literal_suffix body [] body).
      * rewrite El. apply frame_text_header_suffix.
        destruct a; [congruence|]. simpl in Hlen |- *. lia.
Qed.

End CutFrames.

(** What follows the closing quote does not matter to the literal. *)
Lemma parse_string_body_app (x y t r : jsstring) :
  parse_string_body x = Some (t, r) ->
  parse_string_body (x ++ y) = Some (t, r ++ y).
Proof.
  remember (length x) as n eqn:Hn. revert x t r Hn.
  induction n as [n IH] using lt_wf_ind. intros x t r Hn H.
  destruct x as [|c x]; [discriminate|]. simpl in H |- *.
  destruct (N.eqb c 34).
  { now inversion H. }
  destruct (N.eqb c 92).
  { destruct x as [|e x1]; [discriminate|]. simpl.
    destruct (N.eqb e 117).
    - destruct x1 as [|h1 [|h2 [|h3 [|h4 x2]]]]; try discriminate. simpl.
      destruct (hex4 h1 h2 h3 h4); [|discriminate].
      destruct (parse_string_body x2) as [[t' r']|] eqn:E; [|discriminate].
      rewrite (IH (length x2)) with (t := t') (r := r'); simpl in *; try lia; auto.
      now inversion H.
    - destruct (simple_escape e); [|discriminate].
      destruct (parse_string_body x1) as [[t' r']|] eqn:E; [|discriminate].
      rewrite (IH (length x1)) with (t := t') (r := r'); simpl in *; try lia; auto.
      now inversion H. }
  destruct (N.ltb c 32); [discriminate|].
  destruct (parse_string_body x) as [[t' r']|] eqn:E; [|discriminate].
  rewrite (IH (length x)) with (t := t') (r := r'); simpl in *; try lia; auto.
  now inversion H.
Qed.

(** The whole frame passes the check and adds the text of its literal. *)
Lemma content_frame_text (host : NumberHost) (body text : jsstring) :
  parse_string_body (body ++ [QUOTE]) = Some (text, []) ->
  frame_text host (content_frame body) = text.
Proof.
  intros H. unfold frame_text, line_step, content_frame.
  change (startsWith (str "0:") (frame_header ++ body ++ [QUOTE; 125%N])) with true.
  change (slice 2 (frame_header ++ body ++ [QUOTE; 125%N]))
    with (object_header ++ body ++ [QUOTE; 125%N]).
  replace (body ++ [QUOTE; 125%N]) with ((body ++ [QUOTE]) ++ [125%N])
    by (now rewrite <- app_assoc).
  unfold JSON_parse.
  destruct (parse_fuel (object_header ++ (body ++ [QUOTE]) ++ [125%N]))
    as [|[|[|k]]] eqn:F;
    try (unfold parse_fuel in F; rewrite length_app in F; simpl in F; lia).
  simpl. rewrite (@parse_string_body_app _ [125%N] _ _ H). simpl.
  now destruct text.
Qed.

Lemma content_frame_text_witness :
  frame_text lexeme_host (content_frame (str "Hel")) = str "Hel".
Proof. exact (@content_frame_text lexeme_host (str "Hel") (str "Hel") eq_refl). Defined.

Lemma simple_escape_not_newline (e : N) : simple_escape e <> None -> e <> NL.
Proof. intros H ->. now apply H. Qed.

(** A literal holds no line feed. *)
Lemma literal_no_newline (body : jsstring) : literal_body body -> no_newline body.
Proof.
  remember (length body) as n eqn:Hn. revert body Hn.
  induction n as [n IH] using lt_wf_ind. intros body Hn Hbody.
  destruct body as [|c body]; [intros []|].
  pose proof Hbody as [text Ht].
  apply literal_body_step in Hbody.
  destruct Hbody as [Hq [[-> (e & rest & -> & Hrest)]|[Hb Hl]]].
  - destruct Hrest as [[-> (h1 & h2 & h3 & h4 & rest' & -> & Hhex & Hl)]
                      |(He & Hesc & Hl)].
    + apply hex4_digits in Hhex. destruct Hhex as (H1 & H2 & H3 & H4).
      assert (IHr : no_newline rest').
      { apply (IH (length rest')); simpl in *; try lia; auto. }
      intros [E|[E|[E|[E|[E|[E|Hin]]]]]]; try discriminate;
        try (subst; first [ now apply H1 | now apply H2 | now apply H3 | now apply H4 ]);
        try now apply IHr.
    + assert (IHr : no_newline rest).
      { apply (IH (length rest)); simpl in *; try lia; auto. }
      intros [E|[E|Hin]]; try discriminate.
      * now apply (simple_escape_not_newline Hesc).
      * now apply IHr.
  - assert (IHr : no_newline body).
    { apply (IH (length body)); simpl in *; try lia; auto. }
    intros [E|Hin]; [|now apply IHr].
    subst c. simpl in Ht. discriminate.
Qed.

Lemma content_frame_no_newline (body : jsstring) :
  literal_body body -> no_newline (content_frame body).
Proof.
  intros H Hin. unfold content_frame in Hin.
  apply in_app_or in Hin. destruct Hin as [Hin|Hin].
  - revert Hin. vm_compute. intuition discriminate.
  - apply in_app_or in Hin. destruct Hin as [Hin|Hin].
    + now apply (literal_no_newline H).
    + revert Hin. vm_compute. intuition discriminate.
Qed.

(** ** Frames of a streamed body *)

Lemma read_loop_nonblank (host : NumberHost) (cs : list jsstring) :
  read_loop host cs =
  concat (map (frame_text host) (filter nonblank (lines_read cs))).
Proof.
  rewrite read_loop_lines. symmetry. apply concat_frame_text_filter.
  intros [|c l] _ E; [reflexivity|discriminate].
Qed.

(** The body made of the two content frames, delivered in one chunk, gives
    ["Hello"]; the same body delivered with a chunk boundary inside the first
    frame gives ["lo"]: neither fragment of the first frame passes the
    check. *)
Lemma two_frames_cut_inside_the_first :
  qstr "0:{'content':'H" ++ (qstr "el'}" ++ NL :: frame_lo ++ [NL])
  = frame_Hel ++ NL :: frame_lo ++ [NL]
  /\ try_block lexeme_host (delivered [frame_Hel ++ NL :: frame_lo ++ [NL]])
     = Some (str "Hello")
  /\ try_block lexeme_host
       (delivered [qstr "0:{'content':'H"; qstr "el'}" ++ NL :: frame_lo ++ [NL]])
     = Some (str "lo")
  /\ try_block lexeme_host
       (delivered [qstr "0:{'content':'H"; qstr "el'}" ++ NL :: frame_lo ++ [NL]])
     <> Some (str "Hello").
Proof. vm_compute. repeat split; try reflexivity. discriminate. Qed.

(** C3 (amended).  When the lines of the received chunks, each chunk split on
    its own, are exactly the two content frames [0:{"content":"Hel"}] and
    [0:{"content":"lo"}] (blank lines, such as the one after a final line
    feed, aside) - no chunk boundary falls inside a frame - the response
    buffer at stream completion is ["Hello"]. *)
Theorem two_content_frames_accumulate_Hello
  (host : NumberHost) (cs : list jsstring) :
  filter nonblank (lines_read cs) = [frame_Hel; frame_lo] ->
  try_block host (delivered cs) = Some (str "Hello").
Proof.
  intros H. unfold delivered, try_block; simpl.
  rewrite read_loop_nonblank, H. vm_compute. reflexivity.
Qed.

Lemma two_content_frames_witness :
  try_block lexeme_host
    (delivered [frame_Hel ++ [NL]; frame_lo ++ [NL]]) = Some (str "Hello")
  /\ try_block lexeme_host
    (delivered [frame_Hel ++ NL :: frame_lo ++ [NL]]) = Some (str "Hello").
Proof.
  split; apply two_content_frames_accumulate_Hello; vm_compute; reflexivity.
Defined.

Lemma read_loop_silent (host : NumberHost) (cs : list jsstring) :
  (forall l, In l (lines_read cs) -> frame_text host l = []) ->
  read_loop host cs = [].
Proof.
  intros H. rewrite read_loop_lines.
  induction (lines_read cs) as [|l ls IH]; simpl; [reflexivity|].
  rewrite (H l (or_introl eq_refl)). simpl.
  apply IH. intros x Hx. apply H. now right.
Qed.



(** A body without a content frame that does not give the fixed sentence:
    its only line is [1:0:{"content":"Hi"}], which does not start with [0:].
    Delivered in one chunk it gives the fixed sentence; delivered with the
    chunk boundary after [1:], the second chunk is a content frame by itself
    and both components answer ["Hi"]. *)
Lemma body_without_frames_cut_after_prefix :
  str "1:" ++ frame_Hi = qstr "1:0:{'content':'Hi'}"
  /\ filter (startsWith (str "0:")) (split_lines (qstr "1:0:{'content':'Hi'}")) = []
  /\ result_of (GawinVoiceInterface.handleVoiceInput lexeme_host (str "hi")
                  (delivered [qstr "1:0:{'content':'Hi'}"])
                  (GawinVoiceInterface.mount true true true None))
     = no_response_text
  /\ result_of (GawinVoiceInterface.handleVoiceInput lexeme_host (str "hi")
                  (delivered [str "1:"; frame_Hi])
                  (GawinVoiceInterface.mount true true true None))
     = str "Hi"
  /\ result_of (AIVoiceInterface.handleVoiceInput lexeme_host
                  AIVoiceInterface.first_render (str "hi")
                  (delivered [str "1:"; frame_Hi])
                  (AIVoiceInterface.mount true true))
     = str "Hi"
  /\ str "Hi" <> no_response_text.
Proof. vm_compute. repeat split; try reflexivity. discriminate. Qed.

(** C4 (amended).  When no line of any received chunk, each chunk split on
    its own, carries the [0:] prefix, nothing is accumulated and the final
    response is the fixed sentence, in both components: it is the response
    text, the [response] cell of [AIVoiceInterface], and what is spoken when
    the synthesizer is used. *)
Theorem no_content_frames_give_fallback
  (host : NumberHost) (cs : list jsstring) (text : jsstring)
  (g : GawinVoiceInterface.Component)
  (r : AIVoiceInterface.Cells) (a : AIVoiceInterface.Component) :
  (forall l, In l (lines_read cs) -> startsWith (str "0:") l = false) ->
  let gawin := GawinVoiceInterface.handleVoiceInput host text (delivered cs) g in
  let aivoice := AIVoiceInterface.handleVoiceInput host r text (delivered cs) a in
  try_block host (delivered cs) = Some [] /\
  result_of gawin = no_response_text /\
  result_of aivoice = no_response_text /\
  AIVoiceInterface.response (AIVoiceInterface.cells (after aivoice)) = no_response_text /\
  (forall spoken, In (synth_speak spoken) (calls_of gawin ++ calls_of aivoice) ->
                  spoken = no_response_text).
Proof.
  intros H gawin aivoice.
  assert (E : try_block host (delivered cs) = Some []).
  { unfold delivered, try_block; simpl. f_equal. apply read_loop_silent.
    intros l Hl. apply frame_text_no_prefix. now apply H. }
  subst gawin aivoice.
  unfold GawinVoiceInterface.handleVoiceInput, AIVoiceInterface.handleVoiceInput,
    GawinVoiceInterface.handleVoiceInput_settle,
    AIVoiceInterface.handleVoiceInput_settle.
  rewrite E.
  destruct g as [gk grec gsyn gctx gan gstream ganim].
  destruct a as [ak arec asyn].
  destruct gsyn, asyn, (AIVoiceInterface.isMuted r); cbn;
    (repeat split; try reflexivity);
    intros spoken Hin; simpl in Hin;
    repeat (destruct Hin as [Hin|Hin]; [try discriminate; now inversion Hin|]);
    try contradiction.
Qed.

Lemma no_content_frames_witness :
  result_of (GawinVoiceInterface.handleVoiceInput lexeme_host (str "hi")
               (delivered [qstr "f:{'messageId':'m1'}" ++ [NL]; qstr "d:{'finishReason':'stop'}" ++ [NL]])
               (GawinVoiceInterface.mount true true true (Some [1%nat])))
  = str "I heard you, but I'm not sure how to respond to that.".
Proof.
  refine (proj1 (proj2 (no_content_frames_give_fallback lexeme_host
            [qstr "f:{'messageId':'m1'}" ++ [NL]; qstr "d:{'finishReason':'stop'}" ++ [NL]]
            (str "hi") (GawinVoiceInterface.mount true true true (Some [1%nat]))
            AIVoiceInterface.first_render (AIVoiceInterface.mount true true) _))).
  vm_compute. intros l Hl.
  repeat (destruct Hl as [<-|Hl]; [reflexivity|]). contradiction.
Defined.

(** ** Frames and chunk boundaries *)

(** Two bodies at which fragments pass the check.

    First, a body whose only line ends in CR LF, delivered with the chunk
    boundary in front of the CR.  The line [0:{"content":"Hi"}<CR>] is a
    content frame (prefix, and a remainder [JSON.parse] accepts) and its
    code units lie in two chunks, so no content frame has its full line
    within one chunk; yet ["Hi"] is accumulated, because the fragment
    before the boundary passes the check by itself.

    Second, a body whose only line [1:0:{"content":"Hi"}] is no content
    frame, delivered with the boundary after [1:]: the body has no content
    frame at all, and ["Hi"] is accumulated. *)
Lemma frame_across_chunks_contributes :
  (frame_Hi ++ [CR; NL] = frame_Hi ++ [CR] ++ [NL]
   /\ filter nonblank (split_lines (frame_Hi ++ [CR; NL])) = [frame_Hi ++ [CR]]
   /\ startsWith (str "0:") (frame_Hi ++ [CR]) = true
   /\ JSON_parse (slice 2 (frame_Hi ++ [CR]))
      = Some (JObject [(str "content", JString (str "Hi"))])
   /\ lines_read [frame_Hi; [CR; NL]] = [frame_Hi; [CR]; []]
   /\ read_loop lexeme_host [frame_Hi; [CR; NL]] = str "Hi"
   /\ read_loop lexeme_host [frame_Hi; [CR; NL]] <> [])
  /\
  (str "1:" ++ frame_Hi = qstr "1:0:{'content':'Hi'}"
   /\ filter (startsWith (str "0:")) (split_lines (qstr "1:0:{'content':'Hi'}")) = []
   /\ read_loop lexeme_host [qstr "1:0:{'content':'Hi'}"] = []
   /\ read_loop lexeme_host [str "1:"; frame_Hi] = str "Hi").
Proof. vm_compute. repeat split; try reflexivity. discriminate. Qed.

(** C10 (amended).  The read loop splits every chunk on its own: the buffer
    is the concatenation, chunk by chunk, of what the lines of that chunk
    add.  Hence a line [a ++ b] that is cut by a chunk boundary adds what
    the fragments [a] and [b] add as lines of their own.  For a content
    frame written as [0:{"content":"..."}], cut anywhere inside, neither
    fragment passes the prefix-and-parse check: the frame adds nothing, and
    the buffer holds what the lines lying within one chunk add. *)
Theorem chunks_are_split_independently (host : NumberHost) :
  (forall cs, read_loop host cs = concat (map (chunk_text host) cs)) /\
  (forall before a b rest,
      Forall no_newline before -> no_newline a -> no_newline b ->
      Forall no_newline rest ->
      read_loop host [join NL (before ++ [a]); join NL (b :: rest)] =
      concat (map (frame_text host) before) ++ frame_text host a
      ++ frame_text host b ++ concat (map (frame_text host) rest)) /\
  (forall before body a b rest,
      Forall no_newline before -> Forall no_newline rest ->
      literal_body body -> content_frame body = a ++ b -> a <> [] -> b <> [] ->
      frame_text host a = [] /\ frame_text host b = [] /\
      read_loop host [join NL (before ++ [a]); join NL (b :: rest)] =
      concat (map (frame_text host) (before ++ rest))).
Proof.
  assert (cut : forall before a b rest,
      Forall no_newline before -> no_newline a -> no_newline b ->
      Forall no_newline rest ->
      read_loop host [join NL (before ++ [a]); join NL (b :: rest)] =
      concat (map (frame_text host) before) ++ frame_text host a
      ++ frame_text host b ++ concat (map (frame_text host) rest)).
  { intros before a b rest Hbefore Ha Hb Hrest.
    rewrite read_loop_chunkwise. cbn [map concat].
    rewrite (chunk_text_join host (ls := before ++ [a])),
            (chunk_text_join host (ls := b :: rest)).
    - rewrite map_app, concat_app. cbn [map concat].
      now rewrite !app_nil_r, <- !app_assoc.
    - now constructor.
    - apply Forall_app. split; [assumption|now constructor]. }
  split; [apply read_loop_chunkwise|]. split; [exact cut|].
  intros before body a b rest Hbefore Hrest Hbody E Ha Hb.
  destruct (@cut_frame_fragments host body a b Hbody E Ha Hb) as [Fa Fb].
  pose proof (content_frame_no_newline Hbody) as Hnl. rewrite E in Hnl.
  split; [assumption|]. split; [assumption|].
  rewrite cut; try assumption.
  - rewrite Fa, Fb, map_app, concat_app. reflexivity.
  - intros Hin. apply Hnl. apply in_or_app. now left.
  - intros Hin. apply Hnl. apply in_or_app. now right.
Qed.

(** The frame [0:{"content":"Hel"}] cut inside its JSON text adds nothing. *)
Lemma chunks_are_split_independently_witness :
  read_loop lexeme_host
    [join NL ([] ++ [qstr "0:{'content':'He"]); join NL [qstr "l'}"; frame_lo]]
  = str "lo".
Proof.
  refine (eq_trans
    (proj2 (proj2 (proj2 (proj2 (chunks_are_split_independently lexeme_host))
       [] (str "Hel") (qstr "0:{'content':'He") (qstr "l'}") [frame_lo]
       _ _ _ _ _ _))) _).
  - constructor.
  - repeat constructor. vm_compute. intuition discriminate.
  - exists (str "Hel"). reflexivity.
  - reflexivity.
  - discriminate.
  - discriminate.
  - vm_compute. reflexivity.
Defined.

(** ** A failing completion call *)

Lemma call_failed_try_block (host : NumberHost) (net : FetchResult) :
  call_failed net = true -> try_block host net = None.
Proof. destruct net as [|[|] body]; simpl; intros H; congruence. Qed.

(** In [AIVoiceInterface] the sentence produced for a rejected [fetch] is
    longer than the one of [GawinVoiceInterface]. *)
Lemma aivoice_failure_text_is_longer :
  result_of (AIVoiceInterface.handleVoiceInput lexeme_host
               AIVoiceInterface.first_render (str "hello") FetchRejected
               (AIVoiceInterface.mount true true))
  = str "I'm having trouble processing that right now. Please try again."
  /\ result_of (AIVoiceInterface.handleVoiceInput lexeme_host
               AIVoiceInterface.first_render (str "hello") FetchRejected
               (AIVoiceInterface.mount true true))
  <> str "I'm having trouble processing that right now.".
Proof. vm_compute. split; [reflexivity|discriminate]. Qed.

(** C1 (amended).  When the completion call fails, the response text is the
    component's fixed sentence: [I'm having trouble processing that right
    now.] in [GawinVoiceInterface], the same followed by [Please try again.]
    in [AIVoiceInterface], where it is also stored in the [response] cell.
    The turn ends in [speaking] when a synthesizer is available (and, in
    [AIVoiceInterface], the handler's mute flag is clear), else in [idle]. *)
Theorem failed_call_gives_trouble_text
  (host : NumberHost) (text : jsstring) (net : FetchResult)
  (g : GawinVoiceInterface.Component)
  (r : AIVoiceInterface.Cells) (a : AIVoiceInterface.Component) :
  call_failed net = true ->
  let gawin := GawinVoiceInterface.handleVoiceInput host text net g in
  let aivoice := AIVoiceInterface.handleVoiceInput host r text net a in
  result_of gawin = str "I'm having trouble processing that right now." /\
  GawinVoiceInterface.state (GawinVoiceInterface.cells (after gawin)) =
    (if GawinVoiceInterface.synthRef g then speaking else idle) /\
  result_of aivoice =
    str "I'm having trouble processing that right now. Please try again." /\
  AIVoiceInterface.response (AIVoiceInterface.cells (after aivoice)) =
    str "I'm having trouble processing that right now. Please try again." /\
  AIVoiceInterface.state (AIVoiceInterface.cells (after aivoice)) =
    (if negb (AIVoiceInterface.isMuted r) && AIVoiceInterface.synthRef a
     then speaking else idle).
Proof.
  intros H gawin aivoice. subst gawin aivoice.
  unfold GawinVoiceInterface.handleVoiceInput, AIVoiceInterface.handleVoiceInput,
    GawinVoiceInterface.handleVoiceInput_settle,
    AIVoiceInterface.handleVoiceInput_settle.
  rewrite (call_failed_try_block host net H).
  destruct g as [gk grec gsyn gctx gan gstream ganim].
  destruct a as [ak arec asyn].
  destruct gsyn, asyn, (AIVoiceInterface.isMuted r); cbn; repeat split; reflexivity.
Qed.

Lemma failed_call_witness :
  GawinVoiceInterface.state (GawinVoiceInterface.cells (after
    (GawinVoiceInterface.handleVoiceInput lexeme_host (str "hello")
       (FetchResponse false None)
       (GawinVoiceInterface.mount true true true None)))) = speaking
  /\ GawinVoiceInterface.state (GawinVoiceInterface.cells (after
    (GawinVoiceInterface.handleVoiceInput lexeme_host (str "hello")
       FetchRejected
       (GawinVoiceInterface.mount true false true None)))) = idle.
Proof.
  split.
  - exact (proj1 (proj2 (failed_call_gives_trouble_text lexeme_host (str "hello")
             (FetchResponse false None)
             (GawinVoiceInterface.mount true true true None)
             AIVoiceInterface.first_render (AIVoiceInterface.mount true true)
             eq_refl))).
  - exact (proj1 (proj2 (failed_call_gives_trouble_text lexeme_host (str "hello")
             FetchRejected
             (GawinVoiceInterface.mount true false true None)
             AIVoiceInterface.first_render (AIVoiceInterface.mount true true)
             eq_refl))).
Defined.

(** ** Requests to listen, and the end of recognition *)

(** The recognizer's [onend] is the first render's closure: it compares the
    [state] of that render, [idle], and never writes the state. *)
Lemma gawin_end_keeps_state (host : NumberHost) (g : GawinVoiceInterface.Component) :
  GawinVoiceInterface.state (GawinVoiceInterface.cells
    (after (GawinVoiceInterface.dispatch host GawinVoiceInterface.RecognitionEnd g)))
  = GawinVoiceInterface.state (GawinVoiceInterface.cells g).
Proof. reflexivity. Qed.

Lemma aivoice_end_keeps_state (host : NumberHost) (a : AIVoiceInterface.Component) :
  AIVoiceInterface.state (AIVoiceInterface.cells
    (after (AIVoiceInterface.dispatch host AIVoiceInterface.RecognitionEnd a)))
  = AIVoiceInterface.state (AIVoiceInterface.cells a).
Proof. reflexivity. Qed.

(** A handler that read the live cells would return to [idle]. *)
Lemma onend_of_current_render (g : GawinVoiceInterface.Component)
                              (a : AIVoiceInterface.Component) :
  GawinVoiceInterface.state (GawinVoiceInterface.cells g) = listening ->
  AIVoiceInterface.state (AIVoiceInterface.cells a) = listening ->
  GawinVoiceInterface.state (GawinVoiceInterface.cells
    (after (GawinVoiceInterface.onend (GawinVoiceInterface.cells g) g))) = idle
  /\ AIVoiceInterface.state (AIVoiceInterface.cells
    (after (AIVoiceInterface.onend (AIVoiceInterface.cells a) a))) = idle.
Proof.
  intros Hg Ha. unfold GawinVoiceInterface.onend, AIVoiceInterface.onend.
  rewrite Hg, Ha. split; reflexivity.
Qed.

(** An error reported by the recognizer does return the machine to [idle]. *)
Lemma recognition_error_returns_to_idle
  (host : NumberHost) (g : GawinVoiceInterface.Component)
  (a : AIVoiceInterface.Component) :
  GawinVoiceInterface.state (GawinVoiceInterface.cells
    (after (GawinVoiceInterface.dispatch host GawinVoiceInterface.RecognitionError g))) = idle
  /\ AIVoiceInterface.state (AIVoiceInterface.cells
    (after (AIVoiceInterface.dispatch host AIVoiceInterface.RecognitionError a))) = idle.
Proof. split; reflexivity. Qed.

(** C5 (the code at the failing input).  After a click and the recognizer's
    [start] the machine is [listening]; when the recognizer then ends with
    neither a result nor an error, the machine is still [listening], in both
    components, with the [isListening] flag cleared. *)
Lemma recognizer_end_leaves_listening :
  let g := fst (GawinVoiceInterface.run lexeme_host
                  [GawinVoiceInterface.CubeClick; GawinVoiceInterface.RecognitionStart;
                   GawinVoiceInterface.RecognitionEnd]
                  (GawinVoiceInterface.mount true true true (Some [1%nat]))) in
  let a := fst (AIVoiceInterface.run lexeme_host
                  [AIVoiceInterface.MicClick; AIVoiceInterface.RecognitionStart;
                   AIVoiceInterface.RecognitionEnd]
                  (AIVoiceInterface.mount true true)) in
  GawinVoiceInterface.state (GawinVoiceInterface.cells g) = listening
  /\ GawinVoiceInterface.isListening (GawinVoiceInterface.cells g) = false
  /\ AIVoiceInterface.state (AIVoiceInterface.cells a) = listening
  /\ AIVoiceInterface.isListening (AIVoiceInterface.cells a) = false.
Proof. vm_compute. repeat split; reflexivity. Qed.

(** In [AIVoiceInterface] the microphone button is governed by the
    [isListening] flag: in the state reached above ([listening], flag
    cleared) a click starts the recognizer. *)
Lemma mic_click_starts_while_listening :
  let a := fst (AIVoiceInterface.run lexeme_host
                  [AIVoiceInterface.MicClick; AIVoiceInterface.RecognitionStart;
                   AIVoiceInterface.RecognitionEnd]
                  (AIVoiceInterface.mount true true)) in
  AIVoiceInterface.state (AIVoiceInterface.cells a) = listening
  /\ AIVoiceInterface.state (AIVoiceInterface.cells a) <> idle
  /\ calls_of (AIVoiceInterface.dispatch lexeme_host AIVoiceInterface.MicClick a)
     = [recognition_start].
Proof. vm_compute. repeat split; try reflexivity. discriminate. Qed.

(** C2 (amended).  A cube click in any state other than [idle] is a no-op.
    A click on the microphone button starts no recognition and changes no
    cell while the machine is [processing] or [speaking] (the button is
    disabled), and while it is [listening] with the [isListening] flag set
    (the click then asks the recognizer to stop). *)
Theorem listen_request_ignored_when_busy (host : NumberHost) :
  (forall g : GawinVoiceInterface.Component,
      GawinVoiceInterface.state (GawinVoiceInterface.cells g) <> idle ->
      GawinVoiceInterface.dispatch host GawinVoiceInterface.CubeClick g = (tt, g, []))
  /\
  (forall a : AIVoiceInterface.Component,
      AIVoiceInterface.state (AIVoiceInterface.cells a) = processing
      \/ AIVoiceInterface.state (AIVoiceInterface.cells a) = speaking
      \/ (AIVoiceInterface.state (AIVoiceInterface.cells a) = listening
          /\ AIVoiceInterface.isListening (AIVoiceInterface.cells a) = true) ->
      after (AIVoiceInterface.dispatch host AIVoiceInterface.MicClick a) = a
      /\ ~ In recognition_start
             (calls_of (AIVoiceInterface.dispatch host AIVoiceInterface.MicClick a))).
Proof.
  split.
  - intros [[st l lev] rec syn ctx an stream anim] H. simpl in H.
    unfold GawinVoiceInterface.dispatch, GawinVoiceInterface.handleCubeClick.
    destruct st; [congruence| | |]; destruct rec, l; reflexivity.
  - intros [[st l tr resp m] rec syn] H. simpl in H.
    unfold AIVoiceInterface.dispatch, AIVoiceInterface.mic_button_click,
      AIVoiceInterface.mic_button_disabled, AIVoiceInterface.stopListening,
      AIVoiceInterface.startListening.
    destruct H as [H|[H|[H1 H2]]]; subst; cbn;
      destruct rec; cbn; (split; [reflexivity|]); intros Hin;
      repeat (destruct Hin as [Hin|Hin]; [discriminate|]); contradiction.
Qed.

Lemma listen_request_ignored_witness :
  GawinVoiceInterface.dispatch lexeme_host GawinVoiceInterface.CubeClick
    (after (GawinVoiceInterface.handleVoiceInput_request (str "hello")
              (GawinVoiceInterface.mount true true true None)))
  = (tt,
     after (GawinVoiceInterface.handleVoiceInput_request (str "hello")
              (GawinVoiceInterface.mount true true true None)),
     []).
Proof.
  apply (proj1 (listen_request_ignored_when_busy lexeme_host)).
  vm_compute. discriminate.
Defined.

(** ** The audio level *)

Lemma magnitude_range (b : Byte.byte) :
  (0 <= GawinVoiceInterface.magnitude b <= 255)%Z.
Proof.
  unfold GawinVoiceInterface.magnitude. pose proof (Byte.to_N_bounded b). lia.
Qed.

Lemma fold_sum_shift (dataArray : list Byte.byte) (start : Z) :
  fold_left (fun sum value => (sum + GawinVoiceInterface.magnitude value)%Z) dataArray start =
  (start + fold_right Z.add 0 (map GawinVoiceInterface.magnitude dataArray))%Z.
Proof.
  revert start. induction dataArray as [|b d IH]; intros start; simpl.
  - lia.
  - rewrite IH. lia.
Qed.

Lemma reduce_sum_total (dataArray : list Byte.byte) :
  GawinVoiceInterface.reduce_sum dataArray = fold_right Z.add 0%Z (map GawinVoiceInterface.magnitude dataArray).
Proof. unfold GawinVoiceInterface.reduce_sum. now rewrite fold_sum_shift. Qed.

Lemma reduce_sum_range (dataArray : list Byte.byte) :
  (0 <= GawinVoiceInterface.reduce_sum dataArray <= 255 * Z.of_nat (length dataArray))%Z.
Proof.
  rewrite reduce_sum_total.
  induction dataArray as [|b d IH].
  - simpl. lia.
  - pose proof (magnitude_range b).
    change (length (b :: d)) with (S (length d)).
    cbn [map fold_right]. lia.
Qed.

Lemma analyze_publishes_level
  (r : GawinVoiceInterface.Cells) (dataArray : list Byte.byte) (frame : nat)
  (c : GawinVoiceInterface.Component) :
  GawinVoiceInterface.audioLevel (GawinVoiceInterface.cells
    (after (GawinVoiceInterface.analyze r dataArray frame c)))
  = GawinVoiceInterface.level dataArray.
Proof.
  unfold GawinVoiceInterface.analyze.
  destruct (GawinVoiceInterface.isMusic dataArray
            && VoiceState_eqb (GawinVoiceInterface.state r) listening);
    reflexivity.
Qed.

(** C7.  For every sample array the analyser fills (one byte per frequency
    bin), the published audio level is the arithmetic mean of the bin
    magnitudes divided by 255, and it lies in the interval from 0 to 1. *)
Theorem audio_level_is_normalised_mean
  (r : GawinVoiceInterface.Cells) (dataArray : list Byte.byte) (frame : nat)
  (c : GawinVoiceInterface.Component) :
  length dataArray = GawinVoiceInterface.bufferLength ->
  let published :=
    GawinVoiceInterface.audioLevel (GawinVoiceInterface.cells
      (after (GawinVoiceInterface.analyze r dataArray frame c))) in
  published == GawinVoiceInterface.mean_magnitude dataArray / 255
  /\ 0 <= published /\ published <= 1.
Proof.
  intros Hlen published. subst published.
  rewrite analyze_publishes_level.
  pose proof (reduce_sum_range dataArray) as Hsum.
  unfold GawinVoiceInterface.level, GawinVoiceInterface.average,
    GawinVoiceInterface.over, GawinVoiceInterface.mean_magnitude.
  rewrite <- reduce_sum_total, Hlen in *.
  change (Z.of_nat GawinVoiceInterface.bufferLength) with 128%Z in *.
  split; [reflexivity|].
  unfold Qle, Qdiv, Qmult, Qinv, inject_Z; simpl.
  lia.
Qed.

Lemma audio_level_witness :
  GawinVoiceInterface.audioLevel (GawinVoiceInterface.cells
    (after (GawinVoiceInterface.analyze GawinVoiceInterface.first_render
              (repeat Byte.xff 128) 1
              (GawinVoiceInterface.mount true true true (Some [1%nat])))))
  <= 1.
Proof.
  exact (proj2 (proj2 (audio_level_is_normalised_mean
           GawinVoiceInterface.first_render (repeat Byte.xff 128) 1
           (GawinVoiceInterface.mount true true true (Some [1%nat]))
           eq_refl))).
Defined.

(** ** The audio level in binary64 *)

Lemma all_from_spec (n : nat) (s : Z) (f : Z -> bool) :
  all_from n s f = true ->
  forall i, (s <= i < s + Z.of_nat n)%Z -> f i = true.
Proof.
  revert s. induction n as [|n IH]; intros s H i Hi; [lia|].
  cbn [all_from] in H. apply andb_prop in H. destruct H as [H0 H1].
  destruct (Z.eq_dec i s) as [->|Hne]; [assumption|].
  apply (IH (s + 1)%Z H1). lia.
Qed.

Lemma all_below_spec (n : Z) (f : Z -> bool) :
  all_below n f = true -> forall i, (0 <= i < n)%Z -> f i = true.
Proof.
  intros H i Hi. apply (@all_from_spec _ _ _ H). lia.
Qed.

(** Every sum 128 bytes can have is checked. *)
Lemma levels_are_in_range (total : Z) :
  (0 <= total <= 32640)%Z -> level_in_range total = true.
Proof.
  intros Hs.
  assert (T : all_below 32641 level_in_range = true)
    by (vm_cast_no_check (eq_refl true)).
  apply (@all_below_spec _ _ T). lia.
Qed.

(** In binary64 the published level, the sum divided by 128 and then by
    255, lies between 0 and 1, and the first division is exact. *)
Theorem level64_in_unit_interval (dataArray : list Byte.byte) :
  length dataArray = GawinVoiceInterface.bufferLength ->
  PrimFloat.leb (double 0) (level64 dataArray) = true
  /\ PrimFloat.leb (level64 dataArray) (double 1) = true
  /\ PrimFloat.mul
       (PrimFloat.div (double (GawinVoiceInterface.reduce_sum dataArray))
                      (double (Z.of_nat GawinVoiceInterface.bufferLength)))
       (double (Z.of_nat GawinVoiceInterface.bufferLength))
     = double (GawinVoiceInterface.reduce_sum dataArray).
Proof.
  intros Hlen.
  pose proof (reduce_sum_range dataArray) as Hr. rewrite Hlen in Hr.
  change (Z.of_nat GawinVoiceInterface.bufferLength) with 128%Z in Hr.
  assert (R : level_in_range (GawinVoiceInterface.reduce_sum dataArray) = true)
    by (apply levels_are_in_range; lia).
  unfold level_in_range in R.
  apply andb_prop in R. destruct R as [R R3].
  apply andb_prop in R. destruct R as [R1 R2].
  apply FloatAxioms.Leibniz.eqb_spec in R3.
  repeat split; assumption.
Qed.

Lemma level64_witness :
  PrimFloat.leb (level64 (repeat Byte.xff 128)) (double 1) = true.
Proof.
  exact (proj1 (proj2 (@level64_in_unit_interval (repeat Byte.xff 128) eq_refl))).
Defined.

(** ** Teardown *)

Lemma forEach_call (S A : Type) (f : A -> Call) (l : list A) (s : S) :
  forEach (fun x => call (f x)) l s = (tt, s, map f l).
Proof.
  unfold forEach. induction l as [|x l IH]; [reflexivity|].
  cbn [fold_right]. unfold bind at 1. unfold call at 1. now rewrite IH.
Qed.

(** The calls of the two cleanups, in order. *)
Lemma unmount_calls (g : GawinVoiceInterface.Component) :
  GawinVoiceInterface.unmount g =
  (tt, g,
   match GawinVoiceInterface.animationRef g with
   | Some (S n) => [cancelAnimationFrame (S n)]
   | _ => []
   end
   ++ match GawinVoiceInterface.streamRef g with
      | Some tracks => map track_stop tracks
      | None => []
      end
   ++ (if GawinVoiceInterface.audioContextRef g then [audioContext_close] else [])
   ++ (if GawinVoiceInterface.recognitionRef g then [recognition_stop] else [])
   ++ (if GawinVoiceInterface.synthRef g then [synth_cancel] else [])).
Proof.
  destruct g as [gk grec gsyn gctx gan gstream ganim].
  unfold GawinVoiceInterface.unmount, GawinVoiceInterface.audio_cleanup,
    GawinVoiceInterface.recognition_cleanup.
  unfold bind, read, when.
  cbn [GawinVoiceInterface.streamRef GawinVoiceInterface.audioContextRef
       GawinVoiceInterface.recognitionRef GawinVoiceInterface.synthRef
       GawinVoiceInterface.animationRef].
  destruct gstream as [tracks|], ganim as [[|n]|], gctx, grec, gsyn;
    cbn -[forEach]; rewrite ?(forEach_call track_stop); cbn;
    rewrite ?app_nil_r, <- ?app_assoc; reflexivity.
Qed.

Lemma cleanup_calls (a : AIVoiceInterface.Component) :
  AIVoiceInterface.cleanup a =
  (tt, a,
   (if AIVoiceInterface.recognitionRef a then [recognition_stop] else [])
   ++ (if AIVoiceInterface.synthRef a then [synth_cancel] else [])).
Proof. destruct a as [ak [|] [|]]; reflexivity. Qed.

(** C8.  On unmount every track of the stream held in [streamRef] is
    stopped, the audio context in [audioContextRef] is closed, the recognizer
    in [recognitionRef] is stopped and the synthesizer in [synthRef] is told
    to cancel - each whenever its handle is held.  The cleanup of
    [AIVoiceInterface] does the same for its recognizer and synthesizer.
    The component's cells and handles are left as they were. *)
Theorem teardown_releases_resources
  (g : GawinVoiceInterface.Component) (a : AIVoiceInterface.Component) :
  (forall tracks track,
      GawinVoiceInterface.streamRef g = Some tracks -> In track tracks ->
      In (track_stop track) (calls_of (GawinVoiceInterface.unmount g)))
  /\ (GawinVoiceInterface.audioContextRef g = true ->
      In audioContext_close (calls_of (GawinVoiceInterface.unmount g)))
  /\ (GawinVoiceInterface.recognitionRef g = true ->
      In recognition_stop (calls_of (GawinVoiceInterface.unmount g)))
  /\ (GawinVoiceInterface.synthRef g = true ->
      In synth_cancel (calls_of (GawinVoiceInterface.unmount g)))
  /\ (AIVoiceInterface.recognitionRef a = true ->
      In recognition_stop (calls_of (AIVoiceInterface.cleanup a)))
  /\ (AIVoiceInterface.synthRef a = true ->
      In synth_cancel (calls_of (AIVoiceInterface.cleanup a)))
  /\ after (GawinVoiceInterface.unmount g) = g
  /\ after (AIVoiceInterface.cleanup a) = a.
Proof.
  rewrite unmount_calls, cleanup_calls. unfold calls_of, after. cbn [fst snd].
  repeat split.
  - intros tracks track -> Hin.
    rewrite !in_app_iff. right. left. now apply in_map.
  - intros ->. rewrite !in_app_iff. right. right. left. now left.
  - intros ->. rewrite !in_app_iff. right. right. right. left. now left.
  - intros ->. rewrite !in_app_iff. right. right. right. right. now left.
  - intros ->. rewrite !in_app_iff. left. now left.
  - intros ->. rewrite !in_app_iff. right. now left.
Qed.

Lemma teardown_witness :
  In (track_stop 2%nat)
     (calls_of (GawinVoiceInterface.unmount
                  (GawinVoiceInterface.mount true true true (Some [1%nat; 2%nat]))))
  /\ In audioContext_close
     (calls_of (GawinVoiceInterface.unmount
                  (GawinVoiceInterface.mount true true true (Some [1%nat; 2%nat])))).
Proof.
  split.
  - apply (proj1 (teardown_releases_resources
             (GawinVoiceInterface.mount true true true (Some [1%nat; 2%nat]))
             (AIVoiceInterface.mount true true)) [1%nat; 2%nat] 2%nat eq_refl).
    simpl. auto.
  - apply (proj1 (proj2 (teardown_releases_resources
             (GawinVoiceInterface.mount true true true (Some [1%nat; 2%nat]))
             (AIVoiceInterface.mount true true))) eq_refl).
Defined.

(** ** The chat route *)

(** C9.  Whenever the route invokes the model provider, it does so with the
    model [gpt-4o-mini], an output cap of 150 tokens and temperature 0.7,
    under a maximum duration of 30 seconds; two requests that both reach
    the provider reach it with the same three settings, whatever their
    bodies are. *)
Theorem provider_settings_are_fixed
  (Prompt : Type) (convertToModelMessages : evaluation -> option Prompt)
  (req req' : ChatRoute.Request) (o o' : ChatRoute.StreamTextOptions Prompt) :
  ChatRoute.POST convertToModelMessages req = ChatRoute.UIMessageStreamResponse o ->
  ChatRoute.POST convertToModelMessages req' = ChatRoute.UIMessageStreamResponse o' ->
  ChatRoute.model o = str "gpt-4o-mini"
  /\ ChatRoute.maxTokens o = 150%Z
  /\ ChatRoute.temperature o = 7 # 10
  /\ ChatRoute.maxDuration = 30%Z
  /\ ChatRoute.model o' = ChatRoute.model o
  /\ ChatRoute.maxTokens o' = ChatRoute.maxTokens o
  /\ ChatRoute.temperature o' = ChatRoute.temperature o.
Proof.
  assert (fixed : forall q p,
             ChatRoute.POST convertToModelMessages q = ChatRoute.UIMessageStreamResponse p ->
             ChatRoute.model p = str "gpt-4o-mini"
             /\ ChatRoute.maxTokens p = 150%Z /\ ChatRoute.temperature p = 7 # 10).
  { intros q p. unfold ChatRoute.POST, ChatRoute.failed.
    destruct (JSON_parse (ChatRoute.body q)) as [data|]; [|discriminate].
    destruct (get_property "messages" data) as [v| |]; try discriminate;
      (match goal with
       | |- context [convertToModelMessages ?x] =>
           destruct (convertToModelMessages x); [|discriminate]
       end);
      intros E; inversion E; subst; cbn; repeat split. }
  intros H H'.
  destruct (fixed _ _ H) as (M & T & P), (fixed _ _ H') as (M' & T' & P').
  rewrite M, T, P, M', T', P'. repeat split.
Qed.

Lemma provider_settings_witness :
  ChatRoute.maxTokens
    {| ChatRoute.model := str "gpt-4o-mini"; ChatRoute.messages := tt;
       ChatRoute.abortSignal := 7; ChatRoute.maxTokens := 150;
       ChatRoute.temperature := 7 # 10 |} = 150%Z.
Proof.
  refine (proj1 (proj2 (provider_settings_are_fixed (fun _ => Some tt)
    {| ChatRoute.body := qstr "{'messages':[{'role':'user','content':'hello'}]}";
       ChatRoute.signal := 7 |}
    {| ChatRoute.body := qstr "{'messages':[]}"; ChatRoute.signal := 7 |}
    (o' := {| ChatRoute.model := str "gpt-4o-mini"; ChatRoute.messages := tt;
              ChatRoute.abortSignal := 7; ChatRoute.maxTokens := 150;
              ChatRoute.temperature := 7 # 10 |})
    _ _))); vm_compute; reflexivity.
Defined.

(** ** Further facts about the mounted components *)

(** In the mounted [AIVoiceInterface] the turn ends in [speaking] whenever a
    synthesizer is available, whatever the [isMuted] cell holds by then:
    [handleVoiceInput] is reached through the first render's [onresult] and
    reads the first render's [isMuted]. *)
Lemma mounted_aivoice_speaks_when_muted
  (host : NumberHost) (net : FetchResult) (a : AIVoiceInterface.Component) :
  AIVoiceInterface.state (AIVoiceInterface.cells
    (after (AIVoiceInterface.dispatch host (AIVoiceInterface.RequestSettled net) a)))
  = (if AIVoiceInterface.synthRef a then speaking else idle).
Proof.
  unfold AIVoiceInterface.dispatch, AIVoiceInterface.handleVoiceInput_settle.
  destruct a as [ak arec asyn].
  destruct (try_block host net), asyn; reflexivity.
Qed.

(** A finalized transcript takes the machine to [processing], from any
    state, and the end of an utterance takes it to [idle]. *)
Lemma result_then_utterance_end
  (host : NumberHost) (text : jsstring)
  (g : GawinVoiceInterface.Component) (a : AIVoiceInterface.Component) :
  GawinVoiceInterface.state (GawinVoiceInterface.cells
    (after (GawinVoiceInterface.dispatch host (GawinVoiceInterface.RecognitionResult text) g)))
  = processing
  /\ AIVoiceInterface.state (AIVoiceInterface.cells
    (after (AIVoiceInterface.dispatch host (AIVoiceInterface.RecognitionResult text true) a)))
  = processing
  /\ GawinVoiceInterface.state (GawinVoiceInterface.cells
    (after (GawinVoiceInterface.dispatch host GawinVoiceInterface.UtteranceEnd g)))
  = idle
  /\ AIVoiceInterface.state (AIVoiceInterface.cells
    (after (AIVoiceInterface.dispatch host AIVoiceInterface.UtteranceEnd a)))
  = idle.
Proof. repeat split; reflexivity. Qed.

(* ------------------------------------------------------------------ *)
(** ** [JSON.parse] undoes [JSON.stringify] *)

Lemma hex_value_digit (d : N) : (d < 16)%N -> hex_value (hex_digit d) = Some d.
Proof.
  intros H. unfold hex_digit, hex_value.
  destruct (N.ltb_spec d 10).
  - replace (N.leb 48 (48 + d) && N.leb (48 + d) 57) with true.
    + f_equal. lia.
    + symmetry. apply andb_true_intro. split; apply N.leb_le; lia.
  - replace (N.leb 48 (87 + d) && N.leb (87 + d) 57) with false.
    2:{ symmetry. apply andb_false_intro2. apply N.leb_gt. lia. }
    replace (N.leb 65 (87 + d) && N.leb (87 + d) 70) with false.
    2:{ symmetry. apply andb_false_intro2. apply N.leb_gt. lia. }
    replace (N.leb 97 (87 + d) && N.leb (87 + d) 102) with true.
    + f_equal. lia.
    + symmetry. apply andb_true_intro. split; apply N.leb_le; lia.
Qed.

Lemma hex4_UnicodeEscape (c : N) :
  (c < 65536)%N ->
  hex4 (hex_digit (c / 4096)) (hex_digit ((c / 256) mod 16))
       (hex_digit ((c / 16) mod 16)) (hex_digit (c mod 16)) = Some c.
Proof.
  intros H. unfold hex4.
  assert (H3 : (c / 4096 < 16)%N) by (apply N.Div0.div_lt_upper_bound; lia).
  rewrite !hex_value_digit; try assumption; try (apply N.mod_lt; discriminate).
  f_equal.
  pose proof (N.div_mod c 16). pose proof (N.div_mod (c / 16) 16).
  pose proof (N.div_mod (c / 16 / 16) 16).
  pose proof (N.mod_small (c / 16 / 16 / 16) 16).
  replace (c / 256)%N with (c / 16 / 16)%N in *
    by (rewrite N.Div0.div_div; reflexivity).
  replace (c / 4096)%N with (c / 16 / 16 / 16)%N in *
    by (rewrite !N.Div0.div_div; reflexivity).
  lia.
Qed.

Lemma parse_UnicodeEscape (c : N) (s : jsstring) :
  (c < 65536)%N ->
  parse_string_body (UnicodeEscape c ++ s) =
  match parse_string_body s with
  | Some (t, rest) => Some (c :: t, rest)
  | None => None
  end.
Proof.
  intros H. unfold UnicodeEscape.
  cbn [app parse_string_body]. cbn [N.eqb Pos.eqb].
  rewrite hex4_UnicodeEscape by assumption. reflexivity.
Qed.

Lemma parse_plain_unit (c : N) (s : jsstring) :
  (32 <= c)%N -> c <> 34%N -> c <> 92%N ->
  parse_string_body (c :: s) =
  match parse_string_body s with
  | Some (t, rest) => Some (c :: t, rest)
  | None => None
  end.
Proof.
  intros H1 H2 H3. cbn [parse_string_body].
  destruct (N.eqb_spec c 34); [congruence|].
  destruct (N.eqb_spec c 92); [congruence|].
  destruct (N.ltb_spec c 32); [lia|]. reflexivity.
Qed.

(** [JSON.parse] undoes [JSON.stringify] on strings. *)
Lemma parse_quote_body (s rest : jsstring) :
  code_units s ->
  parse_string_body (quote_body s ++ 34%N :: rest) = Some (s, rest).
Proof.
  remember (length s) as n eqn:Hn. revert s Hn.
  induction n as [n IH] using lt_wf_ind. intros s Hn Hs.
  destruct s as [|c r]; [reflexivity|].
  inversion Hs as [|? ? Hc Hr]; subst.
  assert (IHr : parse_string_body (quote_body r ++ 34%N :: rest) = Some (r, rest)).
  { apply (IH (length r)); simpl; auto; lia. }
  cbn [quote_body].
  destruct (N.eqb_spec c 8) as [->|H8]; [cbn; now rewrite IHr|].
  destruct (N.eqb_spec c 9) as [->|H9]; [cbn; now rewrite IHr|].
  destruct (N.eqb_spec c 10) as [->|H10]; [cbn; now rewrite IHr|].
  destruct (N.eqb_spec c 12) as [->|H12]; [cbn; now rewrite IHr|].
  destruct (N.eqb_spec c 13) as [->|H13]; [cbn; now rewrite IHr|].
  destruct (N.eqb_spec c 34) as [->|H34]; [cbn; now rewrite IHr|].
  destruct (N.eqb_spec c 92) as [->|H92]; [cbn; now rewrite IHr|].
  destruct (N.ltb_spec c 32) as [Hlt|Hge].
  { rewrite <- app_assoc, parse_UnicodeEscape by assumption. now rewrite IHr. }
  destruct (is_high_surrogate c) eqn:Hh.
  { destruct r as [|d r'].
    - rewrite parse_UnicodeEscape by assumption. reflexivity.
    - destruct (is_low_surrogate d) eqn:Hl.
      + inversion Hr as [|? ? Hd Hr']; subst.
        unfold is_low_surrogate in Hl. apply andb_prop in Hl.
        destruct Hl as [Hl1 Hl2]. apply N.leb_le in Hl1.
        cbn [app]. rewrite parse_plain_unit by assumption.
        rewrite parse_plain_unit by lia.
        rewrite (IH (length r')) with (s := r'); simpl; auto; lia.
      + rewrite <- app_assoc, parse_UnicodeEscape by assumption. now rewrite IHr. }
  destruct (is_low_surrogate c).
  { rewrite <- app_assoc, parse_UnicodeEscape by assumption. now rewrite IHr. }
  cbn [app]. rewrite parse_plain_unit by assumption. now rewrite IHr.
Qed.

Lemma request_body_shape (text : jsstring) :
  request_body text =
  qstr "{'messages':[{'role':'user','content':'"
  ++ quote_body text ++ 34%N :: qstr "}]}".
Proof.
  unfold request_body, QuoteJSONString.
  change (qstr "{'messages':[{'role':'user','content':'")
    with (qstr "{'messages':[{'role':'user','content':" ++ [34%N]).
  rewrite <- !app_assoc. cbn [app]. rewrite <- app_assoc. reflexivity.
Qed.

Lemma JSON_parse_request_body (text : jsstring) :
  code_units text -> JSON_parse (request_body text) = Some (request_value text).
Proof.
  intros H. rewrite request_body_shape. unfold JSON_parse.
  destruct (parse_fuel (qstr "{'messages':[{'role':'user','content':'"
                        ++ quote_body text ++ 34%N :: qstr "}]}"))
    as [|[|[|[|[|[|[|[|[|k]]]]]]]]] eqn:F;
    try (unfold parse_fuel in F; rewrite length_app in F; simpl in F; lia).
  simpl. rewrite (parse_quote_body _ H). reflexivity.
Qed.

Lemma well_formed_below (a b : jsstring) :
  below_surrogates a -> well_formed (a ++ b) = well_formed b.
Proof.
  induction 1 as [|c r Hc Hr IH]; [reflexivity|].
  cbn [app well_formed]. unfold is_high_surrogate, is_low_surrogate.
  destruct (N.leb_spec 55296 c); [lia|].
  destruct (N.leb_spec 56320 c); [lia|]. cbn. exact IH.
Qed.

Lemma hex_digit_below (d : N) : (d < 16)%N -> (hex_digit d < 55296)%N.
Proof. unfold hex_digit. destruct (N.ltb_spec d 10); lia. Qed.

Lemma UnicodeEscape_below (c : N) : (c < 65536)%N -> below_surrogates (UnicodeEscape c).
Proof.
  intros H. unfold UnicodeEscape, below_surrogates.
  assert (c / 4096 < 16)%N by (apply N.Div0.div_lt_upper_bound; lia).
  repeat constructor; try lia;
    apply hex_digit_below; try assumption; apply N.mod_lt; discriminate.
Qed.

Lemma well_formed_quote_body (s rest : jsstring) :
  code_units s -> well_formed (quote_body s ++ rest) = well_formed rest.
Proof.
  remember (length s) as n eqn:Hn. revert s Hn.
  induction n as [n IH] using lt_wf_ind. intros s Hn Hs.
  destruct s as [|c r]; [reflexivity|].
  inversion Hs as [|? ? Hc Hr]; subst.
  assert (IHr : well_formed (quote_body r ++ rest) = well_formed rest).
  { apply (IH (length r)); simpl; auto; lia. }
  assert (E : forall u, well_formed ((UnicodeEscape c ++ u) ++ rest) = well_formed (u ++ rest)).
  { intros u. rewrite <- app_assoc. apply well_formed_below. now apply UnicodeEscape_below. }
  cbn [quote_body].
  destruct (N.eqb_spec c 8) as [->|H8]; [exact IHr|].
  destruct (N.eqb_spec c 9) as [->|H9]; [exact IHr|].
  destruct (N.eqb_spec c 10) as [->|H10]; [exact IHr|].
  destruct (N.eqb_spec c 12) as [->|H12]; [exact IHr|].
  destruct (N.eqb_spec c 13) as [->|H13]; [exact IHr|].
  destruct (N.eqb_spec c 34) as [->|H34]; [exact IHr|].
  destruct (N.eqb_spec c 92) as [->|H92]; [exact IHr|].
  destruct (N.ltb_spec c 32) as [Hlt|Hge]; [now rewrite E|].
  destruct (is_high_surrogate c) eqn:Hh.
  { destruct r as [|d r'].
    - apply well_formed_below. now apply UnicodeEscape_below.
    - destruct (is_low_surrogate d) eqn:Hl.
      + cbn [app well_formed]. rewrite Hh, Hl. cbn.
        inversion Hr; subst.
        apply (IH (length r')); simpl; auto; lia.
      + now rewrite E. }
  destruct (is_low_surrogate c) eqn:Hl; [now rewrite E|].
  cbn [app well_formed]. rewrite Hh, Hl. exact IHr.
Qed.

Lemma JSON_parse_QuoteJSONString (s : jsstring) :
  code_units s -> JSON_parse (QuoteJSONString s) = Some (JString s).
Proof.
  intros H. unfold JSON_parse, QuoteJSONString.
  destruct (parse_fuel (34%N :: quote_body s ++ [34%N])) as [|k] eqn:F;
    [unfold parse_fuel in F; simpl in F; lia|].
  simpl. rewrite (parse_quote_body _ H). reflexivity.
Qed.

Lemma well_formed_request_body (text : jsstring) :
  code_units text -> well_formed (request_body text) = true.
Proof.
  intros H. rewrite request_body_shape.
  rewrite well_formed_below by (unfold below_surrogates; repeat constructor).
  now rewrite well_formed_quote_body.
Qed.

(** [JSON.parse(JSON.stringify(s))] is [s] for every string [s], lone
    surrogates included, and the serialized text holds no surrogate outside
    a pair. *)
Theorem JSON_parse_stringify (s : jsstring) :
  code_units s ->
  JSON_parse (QuoteJSONString s) = Some (JString s)
  /\ well_formed (QuoteJSONString s) = true.
Proof.
  intros H. split; [now apply JSON_parse_QuoteJSONString|].
  unfold QuoteJSONString. cbn [well_formed].
  change (is_high_surrogate 34) with false. cbn.
  now rewrite well_formed_quote_body.
Qed.

Lemma JSON_parse_stringify_witness :
  JSON_parse (QuoteJSONString [72; 10; 55357; 34]%N) = Some (JString [72; 10; 55357; 34]%N).
Proof.
  refine (proj1 (@JSON_parse_stringify [72; 10; 55357; 34]%N _)).
  repeat constructor.
Defined.

(** The body either component sends for a transcript is well-formed text,
    the route's [req.json()] accepts it, and [convertToModelMessages] is
    called on the one-element array holding the user message with that
    transcript as its content; the reply is the stream unless the converter
    throws. *)
Theorem client_request_reaches_converter
  (Prompt : Type) (convertToModelMessages : evaluation -> option Prompt)
  (text : jsstring) (signal : nat) :
  code_units text ->
  well_formed (request_body text) = true
  /\ ChatRoute.POST convertToModelMessages
       {| ChatRoute.body := request_body text; ChatRoute.signal := signal |} =
     match convertToModelMessages (Value (JArray [user_message text])) with
     | Some prompt =>
         ChatRoute.UIMessageStreamResponse
           {| ChatRoute.model := str "gpt-4o-mini";
              ChatRoute.messages := prompt;
              ChatRoute.abortSignal := signal;
              ChatRoute.maxTokens := 150;
              ChatRoute.temperature := 7 # 10 |}
     | None => ChatRoute.failed Prompt
     end.
Proof.
  intros H. split; [now apply well_formed_request_body|].
  unfold ChatRoute.POST. cbn [ChatRoute.body ChatRoute.signal].
  rewrite (JSON_parse_request_body H). reflexivity.
Qed.

Lemma client_request_witness :
  ChatRoute.POST (fun messages : evaluation => Some messages)
    {| ChatRoute.body := request_body (str "hi"); ChatRoute.signal := 7%nat |} =
  ChatRoute.UIMessageStreamResponse
    {| ChatRoute.model := str "gpt-4o-mini";
       ChatRoute.messages := Value (JArray [user_message (str "hi")]);
       ChatRoute.abortSignal := 7%nat;
       ChatRoute.maxTokens := 150;
       ChatRoute.temperature := 7 # 10 |}.
Proof.
  refine (proj2 (@client_request_reaches_converter evaluation
                   (fun messages : evaluation => Some messages) (str "hi") 7%nat _)).
  repeat constructor.
Defined.

(* ------------------------------------------------------------------ *)
(** ** Frames written with [JSON.stringify] *)

Lemma quote_body_literal (d : jsstring) :
  code_units d -> parse_string_body (quote_body d ++ [QUOTE]) = Some (d, []).
Proof. intros H. exact (parse_quote_body [] H). Qed.

Lemma chunk_text_cons_line (host : NumberHost) (l r : jsstring) :
  no_newline l -> chunk_text host (l ++ NL :: r) = frame_text host l ++ chunk_text host r.
Proof.
  intros H. unfold chunk_text. now rewrite split_lines_cons_line.
Qed.

Lemma chunk_text_content_lines (host : NumberHost) (g : list jsstring) :
  Forall code_units g ->
  chunk_text host (concat (map content_line g)) = concat g.
Proof.
  induction 1 as [|d g Hd Hg IH]; [reflexivity|].
  cbn [map concat]. unfold content_line at 1.
  rewrite <- app_assoc. cbn [app].
  rewrite chunk_text_cons_line.
  - rewrite IH. f_equal. apply content_frame_text. now apply quote_body_literal.
  - apply content_frame_no_newline. exists d. now apply quote_body_literal.
Qed.

(** A body made of lines [0:{"content":<JSON.stringify(delta)>}], each
    with its line feed and grouped into chunks in any way that keeps lines
    whole, is read back as the concatenation of the deltas. *)
Theorem stringified_deltas_are_read_back
  (host : NumberHost) (groups : list (list jsstring)) :
  Forall (Forall code_units) groups ->
  read_loop host (map (fun g => concat (map content_line g)) groups)
  = concat (concat groups).
Proof.
  intros H. rewrite read_loop_chunkwise, map_map.
  induction H as [|g gs Hg Hgs IH]; [reflexivity|].
  cbn [map concat]. now rewrite IH, chunk_text_content_lines, concat_app.
Qed.

Lemma stringified_deltas_witness :
  read_loop lexeme_host
    (map (fun g => concat (map content_line g))
         [[str "Hel"; [34; 10]%N]; []; [str "lo"]])
  = str "Hel" ++ [34; 10]%N ++ str "lo".
Proof.
  refine (@stringified_deltas_are_read_back lexeme_host
            [[str "Hel"; [34; 10]%N]; []; [str "lo"]] _).
  repeat constructor.
Defined.

(** When every line the loop sees is blank or is [0:] followed by a JSON
    string, as in [0:"Hello"], nothing is accumulated and the response is the
    sentence for an empty buffer: the value has no [content] property. *)
Theorem string_frames_add_nothing (host : NumberHost) (cs : list jsstring) :
  (forall line, In line (lines_read cs) ->
     line = [] \/ exists t, code_units t /\ line = string_frame t) ->
  read_loop host cs = []
  /\ or_else (read_loop host cs) no_response_text = no_response_text.
Proof.
  intros Hl.
  assert (E : read_loop host cs = []).
  { rewrite read_loop_lines.
    induction (lines_read cs) as [|l ls IH]; [reflexivity|].
    cbn [map concat]. rewrite IH by (intros x Hx; apply Hl; now right).
    rewrite app_nil_r.
    destruct (Hl l (or_introl eq_refl)) as [->|(t & Ht & ->)]; [reflexivity|].
    unfold frame_text, line_step, string_frame.
    change (startsWith (str "0:") (str "0:" ++ QuoteJSONString t)) with true.
    change (slice 2 (str "0:" ++ QuoteJSONString t)) with (QuoteJSONString t).
    cbv iota. rewrite (JSON_parse_QuoteJSONString Ht). reflexivity. }
  split; [exact E|]. now rewrite E.
Qed.

Lemma string_frames_witness :
  read_loop lexeme_host [string_frame (str "Hel") ++ [NL]; string_frame (str "lo") ++ [NL]]
  = [].
Proof.
  refine (proj1 (@string_frames_add_nothing lexeme_host
            [string_frame (str "Hel") ++ [NL]; string_frame (str "lo") ++ [NL]] _)).
  intros line [<-|[<-|[<-|[<-|[]]]]].
  - right. exists (str "Hel"). split; [repeat constructor|reflexivity].
  - now left.
  - right. exists (str "lo"). split; [repeat constructor|reflexivity].
  - now left.
Defined.

(* ------------------------------------------------------------------ *)
(** ** Chunk boundaries and lines without the prefix *)

Lemma split_lines_app_newline (a b : jsstring) :
  split_lines (a ++ NL :: b) = split_lines a ++ split_lines b.
Proof.
  induction a as [|c a IH]; [reflexivity|].
  cbn [app split_lines]. rewrite IH.
  destruct (N.eqb c NL); [reflexivity|].
  pose proof (split_lines_nonempty a) as Hne.
  destruct (split_lines a) as [|l ls]; [congruence|reflexivity].
Qed.

Lemma chunk_text_app_newline (host : NumberHost) (a b : jsstring) :
  chunk_text host (a ++ NL :: b) = chunk_text host a ++ chunk_text host b.
Proof.
  unfold chunk_text. now rewrite split_lines_app_newline, map_app, concat_app.
Qed.

(** A chunk boundary next to a line feed, before it or after it, changes
    nothing: the body read in one piece and the body cut there accumulate
    the same buffer. *)
Theorem boundary_at_line_feed_is_harmless
  (host : NumberHost) (before after_ : list jsstring) (a b : jsstring) :
  read_loop host (before ++ [a ++ [NL]; b] ++ after_) =
  read_loop host (before ++ [a ++ NL :: b] ++ after_)
  /\ read_loop host (before ++ [a; NL :: b] ++ after_) =
     read_loop host (before ++ [a ++ NL :: b] ++ after_).
Proof.
  rewrite !read_loop_app.
  assert (E : read_loop host [a ++ NL :: b] = chunk_text host a ++ chunk_text host b).
  { rewrite read_loop_chunkwise. cbn [map concat].
    now rewrite chunk_text_app_newline, app_nil_r. }
  rewrite E. split; f_equal; f_equal; rewrite read_loop_chunkwise; cbn [map concat];
    rewrite app_nil_r.
  - rewrite chunk_text_app_newline. change (chunk_text host []) with (@nil N).
    now rewrite app_nil_r.
  - change (NL :: b) with ([] ++ NL :: b). rewrite chunk_text_app_newline.
    reflexivity.
Qed.

(** Leaving out every line that does not start with [0:] changes nothing. *)
Theorem other_lines_are_ignored (host : NumberHost) (cs : list jsstring) :
  read_loop host cs = read_loop host (map only_prefixed cs).
Proof.
  rewrite !read_loop_chunkwise, map_map. f_equal.
  apply map_ext. intros c. unfold only_prefixed.
  pose proof (split_lines_no_newline c) as Hnl.
  rewrite chunk_text_join by (now apply Forall_no_newline_filter).
  unfold chunk_text. symmetry. apply concat_frame_text_filter.
  intros l _ E. now apply frame_text_no_prefix.
Qed.

(* ------------------------------------------------------------------ *)
(** ** One turn, and whole runs of events *)

Lemma or_else_nonempty (a b : jsstring) : b <> [] -> or_else a b <> [].
Proof. destruct a; simpl; [auto|discriminate]. Qed.

(** One turn of [handleVoiceInput], in both components and whatever the
    network does: the response text is never empty, exactly one request is
    sent, and exactly one utterance - of the response text - is spoken when
    the component is to speak, none otherwise. *)
Theorem every_turn_is_one_request_one_utterance
  (host : NumberHost) (text : jsstring) (net : FetchResult)
  (g : GawinVoiceInterface.Component)
  (r : AIVoiceInterface.Cells) (a : AIVoiceInterface.Component) :
  let gawin := GawinVoiceInterface.handleVoiceInput host text net g in
  let aivoice := AIVoiceInterface.handleVoiceInput host r text net a in
  result_of gawin <> [] /\ result_of aivoice <> []
  /\ filter is_fetch (calls_of gawin) = [fetch_chat text]
  /\ filter is_fetch (calls_of aivoice) = [fetch_chat text]
  /\ filter is_speak (calls_of gawin) =
     (if GawinVoiceInterface.synthRef g then [synth_speak (result_of gawin)] else [])
  /\ filter is_speak (calls_of aivoice) =
     (if negb (AIVoiceInterface.isMuted r) && AIVoiceInterface.synthRef a
      then [synth_speak (result_of aivoice)] else [])
  /\ GawinVoiceInterface.state (GawinVoiceInterface.cells (after gawin)) =
     (if GawinVoiceInterface.synthRef g then speaking else idle)
  /\ AIVoiceInterface.state (AIVoiceInterface.cells (after aivoice)) =
     (if negb (AIVoiceInterface.isMuted r) && AIVoiceInterface.synthRef a
      then speaking else idle)
  /\ AIVoiceInterface.response (AIVoiceInterface.cells (after aivoice)) = result_of aivoice.
Proof.
  intros gawin aivoice. subst gawin aivoice.
  unfold GawinVoiceInterface.handleVoiceInput, AIVoiceInterface.handleVoiceInput,
    GawinVoiceInterface.handleVoiceInput_settle,
    AIVoiceInterface.handleVoiceInput_settle.
  destruct g as [gk grec gsyn gctx gan gstream ganim].
  destruct a as [ak arec asyn].
  assert (N1 : forall x, or_else x no_response_text <> [])
    by (intros x; apply or_else_nonempty; discriminate).
  destruct (try_block host net) as [aiResponse|];
    destruct gsyn, asyn, (AIVoiceInterface.isMuted r); cbn;
    repeat split; try reflexivity; try apply N1; try discriminate.
Qed.

Lemma every_turn_witness :
  filter is_speak
    (calls_of (GawinVoiceInterface.handleVoiceInput lexeme_host (str "hi") FetchRejected
                 (GawinVoiceInterface.mount true true true None)))
  = [synth_speak GawinVoiceInterface.trouble_text].
Proof.
  exact (proj1 (proj2 (proj2 (proj2 (proj2
    (@every_turn_is_one_request_one_utterance lexeme_host (str "hi") FetchRejected
       (GawinVoiceInterface.mount true true true None)
       AIVoiceInterface.first_render (AIVoiceInterface.mount true true))))))).
Defined.

Lemma filter_map_none (A0 : Type) (f : Call -> bool) (g : A0 -> Call) (l : list A0) :
  (forall x, f (g x) = false) -> filter f (map g l) = [].
Proof.
  intros H. induction l as [|x l IH]; simpl; [reflexivity|]. now rewrite H.
Qed.

Lemma gawin_step (host : NumberHost) (e : GawinVoiceInterface.Event) (c : GawinVoiceInterface.Component) :
  let r := GawinVoiceInterface.dispatch host e c in
  (GawinVoiceInterface.recognitionRef (after r) = GawinVoiceInterface.recognitionRef c
   /\ GawinVoiceInterface.synthRef (after r) = GawinVoiceInterface.synthRef c
   /\ GawinVoiceInterface.audioContextRef (after r) = GawinVoiceInterface.audioContextRef c
   /\ GawinVoiceInterface.analyserRef (after r) = GawinVoiceInterface.analyserRef c
   /\ GawinVoiceInterface.streamRef (after r) = GawinVoiceInterface.streamRef c)
  /\ filter is_fetch (calls_of r) = gawin_requests [e]
  /\ filter is_speak (calls_of r) =
     (if GawinVoiceInterface.synthRef c then gawin_utterances host [e] else [])
  /\ (GawinVoiceInterface.recognitionRef c = false -> filter is_recognition (calls_of r) = [])
  /\ (GawinVoiceInterface.synthRef c = false ->
      filter is_synth (calls_of r) = []
      /\ (GawinVoiceInterface.state (GawinVoiceInterface.cells c) <> speaking -> GawinVoiceInterface.state (GawinVoiceInterface.cells (after r)) <> speaking)).
Proof.
  destruct c as [[st l lev] rec syn ctx an stream anim].
  destruct e as [| |text|net| | | |d frame|]; cbn -[GawinVoiceInterface.unmount].
  - destruct rec, l, st, syn; cbn; repeat split;
      intros; try congruence; auto.
  - destruct syn; repeat split; intros; try congruence; auto.
  - destruct syn; repeat split; intros; try congruence; auto.
  - unfold GawinVoiceInterface.handleVoiceInput_settle, gawin_response.
    destruct (try_block host net), syn; cbn; repeat split;
      intros; try congruence; auto.
  - destruct syn; repeat split; intros; try congruence; auto.
  - destruct syn; repeat split; intros; try congruence; auto.
  - destruct syn; repeat split; intros; try congruence; auto.
  - destruct an; [|destruct syn; repeat split; intros; try congruence; auto].
    unfold GawinVoiceInterface.analyze. destruct (GawinVoiceInterface.isMusic d), syn; cbn; repeat split;
      intros; try congruence; auto.
  - rewrite unmount_calls. unfold after, calls_of.
    cbn [fst snd GawinVoiceInterface.recognitionRef GawinVoiceInterface.synthRef GawinVoiceInterface.audioContextRef GawinVoiceInterface.analyserRef
         GawinVoiceInterface.streamRef GawinVoiceInterface.animationRef GawinVoiceInterface.cells GawinVoiceInterface.state].
    rewrite !filter_app.
    assert (T : forall f, (forall t, f (track_stop t) = false) ->
                filter f match stream with
                         | Some tracks => map track_stop tracks
                         | None => []
                         end = []).
    { intros f Hf. destruct stream; [now apply filter_map_none|reflexivity]. }
    rewrite !T by reflexivity.
    destruct anim as [[|n]|], ctx, rec, syn; cbn; repeat split;
      intros; try congruence; auto.
Qed.

Lemma gawin_run_cons (host : NumberHost) (e : GawinVoiceInterface.Event) (es : list GawinVoiceInterface.Event) (c : GawinVoiceInterface.Component) :
  GawinVoiceInterface.run host (e :: es) c =
  (fst (GawinVoiceInterface.run host es (after (GawinVoiceInterface.dispatch host e c))),
   calls_of (GawinVoiceInterface.dispatch host e c) ++ snd (GawinVoiceInterface.run host es (after (GawinVoiceInterface.dispatch host e c)))).
Proof.
  cbn [GawinVoiceInterface.run]. unfold after, calls_of.
  destruct (GawinVoiceInterface.dispatch host e c) as [[u c1] k1]. cbn [fst snd].
  destruct (GawinVoiceInterface.run host es c1) as [c2 k2]. reflexivity.
Qed.

(** Over every sequence of events of the mounted [GawinVoiceInterface]:
    the requests sent are those of the recognizer's results, in order; the
    utterances are those of the settled requests, in order, each with its
    response text; without a recognizer no call is made on one; without a
    synthesizer no call is made on one and the state never becomes
    [speaking]. *)
Theorem gawin_run_trace (host : NumberHost) (es : list GawinVoiceInterface.Event) (c : GawinVoiceInterface.Component) :
  filter is_fetch (snd (GawinVoiceInterface.run host es c)) = gawin_requests es
  /\ filter is_speak (snd (GawinVoiceInterface.run host es c)) =
     (if GawinVoiceInterface.synthRef c then gawin_utterances host es else [])
  /\ (GawinVoiceInterface.recognitionRef c = false ->
      filter is_recognition (snd (GawinVoiceInterface.run host es c)) = [])
  /\ (GawinVoiceInterface.synthRef c = false -> GawinVoiceInterface.state (GawinVoiceInterface.cells c) <> speaking ->
      filter is_synth (snd (GawinVoiceInterface.run host es c)) = []
      /\ GawinVoiceInterface.state (GawinVoiceInterface.cells (fst (GawinVoiceInterface.run host es c))) <> speaking).
Proof.
  revert c. induction es as [|e es IH]; intros c.
  - cbn. destruct (GawinVoiceInterface.synthRef c); repeat split; auto.
  - rewrite gawin_run_cons. cbn [fst snd].
    destruct (gawin_step host e c) as ((R1 & R2 & _) & F & S & Rec & Syn).
    cbv zeta in *.
    destruct (IH (after (GawinVoiceInterface.dispatch host e c))) as (IF & IS & IRec & ISyn).
    rewrite !filter_app, F, S, IF, IS, R2.
    split; [|split; [|split]].
    + change (e :: es) with ([e] ++ es). unfold gawin_requests.
      now rewrite flat_map_app.
    + destruct (GawinVoiceInterface.synthRef c); [|reflexivity].
      change (e :: es) with ([e] ++ es). unfold gawin_utterances.
      now rewrite flat_map_app.
    + intros Hr. rewrite (Rec Hr), IRec; [reflexivity|]. now rewrite R1.
    + intros Hn Hs. destruct (Syn Hn) as [S1 S2].
      destruct ISyn as [S3 S4]; [now rewrite R2|now apply S2|].
      rewrite S1, S3. now split.
Qed.

Lemma gawin_run_trace_witness :
  filter is_recognition
    (snd (GawinVoiceInterface.run lexeme_host
            [GawinVoiceInterface.CubeClick;
             GawinVoiceInterface.RecognitionResult (str "hi");
             GawinVoiceInterface.RequestSettled FetchRejected;
             GawinVoiceInterface.Unmount]
            (GawinVoiceInterface.mount false true true None)))
  = [].
Proof.
  exact (proj1 (proj2 (proj2
    (@gawin_run_trace lexeme_host
       [GawinVoiceInterface.CubeClick;
        GawinVoiceInterface.RecognitionResult (str "hi");
        GawinVoiceInterface.RequestSettled FetchRejected;
        GawinVoiceInterface.Unmount]
       (GawinVoiceInterface.mount false true true None)))) eq_refl).
Defined.

Lemma aivoice_step (host : NumberHost) (e : AIVoiceInterface.Event) (c : AIVoiceInterface.Component) :
  let r := AIVoiceInterface.dispatch host e c in
  (AIVoiceInterface.recognitionRef (after r) = AIVoiceInterface.recognitionRef c
   /\ AIVoiceInterface.synthRef (after r) = AIVoiceInterface.synthRef c)
  /\ filter is_fetch (calls_of r) = aivoice_requests [e]
  /\ filter is_speak (calls_of r) =
     (if AIVoiceInterface.synthRef c then aivoice_utterances host [e] else [])
  /\ (AIVoiceInterface.recognitionRef c = false -> filter is_recognition (calls_of r) = [])
  /\ (AIVoiceInterface.synthRef c = false ->
      filter is_synth (calls_of r) = []
      /\ (AIVoiceInterface.state (AIVoiceInterface.cells c) <> speaking -> AIVoiceInterface.state (AIVoiceInterface.cells (after r)) <> speaking))
  /\ AIVoiceInterface.isMuted (AIVoiceInterface.cells (after r)) = xorb (AIVoiceInterface.isMuted (AIVoiceInterface.cells c)) (is_mute_click e).
Proof.
  destruct c as [[st l tr resp m] rec syn].
  destruct e as [|sp| |text fin|net| | | |].
  - destruct rec, l, st, syn, m; cbn; repeat split; intros; try congruence; auto.
  - destruct syn, sp, m; cbn; repeat split; intros; try congruence; auto.
  - destruct syn, m; cbn; repeat split; intros; try congruence; auto.
  - destruct fin, syn, m; cbn; repeat split; intros; try congruence; auto.
  - cbn. unfold AIVoiceInterface.handleVoiceInput_settle, aivoice_response.
    destruct (try_block host net), syn, m; cbn; repeat split;
      intros; try congruence; auto.
  - destruct syn, m; cbn; repeat split; intros; try congruence; auto.
  - destruct syn, m; cbn; repeat split; intros; try congruence; auto.
  - destruct syn, m; cbn; repeat split; intros; try congruence; auto.
  - destruct rec, syn, m; cbn; repeat split; intros; try congruence; auto.
Qed.

Lemma aivoice_run_cons (host : NumberHost) (e : AIVoiceInterface.Event) (es : list AIVoiceInterface.Event) (c : AIVoiceInterface.Component) :
  AIVoiceInterface.run host (e :: es) c =
  (fst (AIVoiceInterface.run host es (after (AIVoiceInterface.dispatch host e c))),
   calls_of (AIVoiceInterface.dispatch host e c) ++ snd (AIVoiceInterface.run host es (after (AIVoiceInterface.dispatch host e c)))).
Proof.
  cbn [AIVoiceInterface.run]. unfold after, calls_of.
  destruct (AIVoiceInterface.dispatch host e c) as [[u c1] k1]. cbn [fst snd].
  destruct (AIVoiceInterface.run host es c1) as [c2 k2]. reflexivity.
Qed.

(** The same for the mounted [AIVoiceInterface], where only finalized
    results are sent; the utterances do not depend on the mute flag, and the
    flag after the run is the flag before it, negated once for every click
    on the mute button. *)
Theorem aivoice_run_trace (host : NumberHost) (es : list AIVoiceInterface.Event) (c : AIVoiceInterface.Component) :
  filter is_fetch (snd (AIVoiceInterface.run host es c)) = aivoice_requests es
  /\ filter is_speak (snd (AIVoiceInterface.run host es c)) =
     (if AIVoiceInterface.synthRef c then aivoice_utterances host es else [])
  /\ (AIVoiceInterface.recognitionRef c = false ->
      filter is_recognition (snd (AIVoiceInterface.run host es c)) = [])
  /\ (AIVoiceInterface.synthRef c = false -> AIVoiceInterface.state (AIVoiceInterface.cells c) <> speaking ->
      filter is_synth (snd (AIVoiceInterface.run host es c)) = []
      /\ AIVoiceInterface.state (AIVoiceInterface.cells (fst (AIVoiceInterface.run host es c))) <> speaking)
  /\ AIVoiceInterface.isMuted (AIVoiceInterface.cells (fst (AIVoiceInterface.run host es c))) =
     xorb (AIVoiceInterface.isMuted (AIVoiceInterface.cells c)) (Nat.odd (length (filter is_mute_click es))).
Proof.
  revert c. induction es as [|e es IH]; intros c.
  - cbn. destruct (AIVoiceInterface.synthRef c), (AIVoiceInterface.isMuted (AIVoiceInterface.cells c)); repeat split; auto.
  - rewrite aivoice_run_cons. cbn [fst snd].
    destruct (aivoice_step host e c) as ((R1 & R2) & F & S & Rec & Syn & M).
    cbv zeta in *.
    destruct (IH (after (AIVoiceInterface.dispatch host e c))) as (IF & IS & IRec & ISyn & IM).
    rewrite !filter_app, F, S, IF, IS, R2.
    split; [|split; [|split; [|split]]].
    + change (e :: es) with ([e] ++ es). unfold aivoice_requests.
      now rewrite flat_map_app.
    + destruct (AIVoiceInterface.synthRef c); [|reflexivity].
      change (e :: es) with ([e] ++ es). unfold aivoice_utterances.
      now rewrite flat_map_app.
    + intros Hr. rewrite (Rec Hr), IRec; [reflexivity|]. now rewrite R1.
    + intros Hn Hs. destruct (Syn Hn) as [S1 S2].
      destruct ISyn as [S3 S4]; [now rewrite R2|now apply S2|].
      rewrite S1, S3. now split.
    + rewrite IM, M. cbn [filter].
      destruct (is_mute_click e); cbn [length].
      * rewrite Nat.odd_succ, <- Nat.negb_odd.
        destruct (AIVoiceInterface.isMuted (AIVoiceInterface.cells c)), (Nat.odd (length (filter is_mute_click es))); reflexivity.
      * now rewrite xorb_false_r.
Qed.

Lemma aivoice_run_trace_witness :
  filter is_synth
    (snd (AIVoiceInterface.run lexeme_host
            [AIVoiceInterface.MicClick;
             AIVoiceInterface.MuteClick true;
             AIVoiceInterface.RecognitionResult (str "hi") true;
             AIVoiceInterface.RequestSettled FetchRejected]
            (AIVoiceInterface.mount true false)))
  = [].
Proof.
  refine (proj1 (proj1 (proj2 (proj2 (proj2
    (@aivoice_run_trace lexeme_host
       [AIVoiceInterface.MicClick;
        AIVoiceInterface.MuteClick true;
        AIVoiceInterface.RecognitionResult (str "hi") true;
        AIVoiceInterface.RequestSettled FetchRejected]
       (AIVoiceInterface.mount true false))))) eq_refl _)).
  discriminate.
Defined.

Lemma mute_step (host : NumberHost) (e : AIVoiceInterface.Event) (c c' : AIVoiceInterface.Component) :
  same_but_mute c c' ->
  calls_of (AIVoiceInterface.dispatch host e c) = calls_of (AIVoiceInterface.dispatch host e c')
  /\ same_but_mute (after (AIVoiceInterface.dispatch host e c)) (after (AIVoiceInterface.dispatch host e c')).
Proof.
  destruct c as [[st l tr resp m] rec syn], c' as [[st' l' tr' resp' m'] rec' syn'].
  unfold same_but_mute. cbn. intros (-> & -> & -> & -> & -> & ->).
  destruct e as [|sp| |text fin|net| | | |].
  - destruct rec', l', st'; cbn; repeat split.
  - destruct syn', sp; cbn; repeat split.
  - cbn; repeat split.
  - destruct fin; cbn; repeat split.
  - cbn. unfold AIVoiceInterface.handleVoiceInput_settle.
    destruct (try_block host net), syn'; cbn; repeat split.
  - cbn; repeat split.
  - cbn; repeat split.
  - cbn; repeat split.
  - destruct rec', syn'; cbn; repeat split.
Qed.

(** The mute flag has no effect on the mounted [AIVoiceInterface]: two
    components that differ at most in [isMuted] make the same calls on every
    sequence of events, utterances included, and still differ at most in
    [isMuted] afterwards. *)
Theorem mute_does_not_interfere
  (host : NumberHost) (es : list AIVoiceInterface.Event) (c c' : AIVoiceInterface.Component) :
  same_but_mute c c' ->
  snd (AIVoiceInterface.run host es c) = snd (AIVoiceInterface.run host es c')
  /\ same_but_mute (fst (AIVoiceInterface.run host es c)) (fst (AIVoiceInterface.run host es c')).
Proof.
  revert c c'. induction es as [|e es IH]; intros c c' H.
  - now split.
  - rewrite !aivoice_run_cons. cbn [fst snd].
    destruct (mute_step host e H) as [E1 E2].
    destruct (IH _ _ E2) as [E3 E4]. rewrite E1, E3. now split.
Qed.

Lemma mute_witness :
  snd (AIVoiceInterface.run lexeme_host
         [AIVoiceInterface.MuteClick false;
          AIVoiceInterface.RecognitionResult (str "hi") true;
          AIVoiceInterface.RequestSettled FetchRejected]
         (AIVoiceInterface.mount true true))
  = snd (AIVoiceInterface.run lexeme_host
         [AIVoiceInterface.MuteClick false;
          AIVoiceInterface.RecognitionResult (str "hi") true;
          AIVoiceInterface.RequestSettled FetchRejected]
         {| AIVoiceInterface.cells :=
              {| AIVoiceInterface.state := idle;
                 AIVoiceInterface.isListening := false;
                 AIVoiceInterface.transcript := [];
                 AIVoiceInterface.response := [];
                 AIVoiceInterface.isMuted := true |};
            AIVoiceInterface.recognitionRef := true;
            AIVoiceInterface.synthRef := true |}).
Proof.
  refine (proj1 (@mute_does_not_interfere lexeme_host
    [AIVoiceInterface.MuteClick false;
     AIVoiceInterface.RecognitionResult (str "hi") true;
     AIVoiceInterface.RequestSettled FetchRejected]
    (AIVoiceInterface.mount true true)
    {| AIVoiceInterface.cells :=
         {| AIVoiceInterface.state := idle;
            AIVoiceInterface.isListening := false;
            AIVoiceInterface.transcript := [];
            AIVoiceInterface.response := [];
            AIVoiceInterface.isMuted := true |};
       AIVoiceInterface.recognitionRef := true;
       AIVoiceInterface.synthRef := true |} _)).
  repeat split.
Defined.

Lemma gawin_start_step (host : NumberHost) (e : GawinVoiceInterface.Event) (c : GawinVoiceInterface.Component) :
  filter is_start (calls_of (GawinVoiceInterface.dispatch host e c)) =
  if is_cube_click e && GawinVoiceInterface.recognitionRef c && negb (GawinVoiceInterface.isListening (GawinVoiceInterface.cells c))
     && VoiceState_eqb (GawinVoiceInterface.state (GawinVoiceInterface.cells c)) idle
  then [recognition_start] else [].
Proof.
  destruct c as [[st l lev] rec syn ctx an stream anim].
  destruct e as [| |text|net| | | |d frame|].
  - destruct rec, l, st; reflexivity.
  - reflexivity.
  - reflexivity.
  - cbn. unfold GawinVoiceInterface.handleVoiceInput_settle.
    destruct (try_block host net), syn; reflexivity.
  - reflexivity.
  - reflexivity.
  - reflexivity.
  - cbn. destruct an; [|reflexivity]. unfold GawinVoiceInterface.analyze.
    destruct (GawinVoiceInterface.isMusic d); reflexivity.
  - cbn -[GawinVoiceInterface.unmount]. rewrite unmount_calls. unfold calls_of. cbn [fst snd].
    cbn [GawinVoiceInterface.recognitionRef GawinVoiceInterface.synthRef GawinVoiceInterface.audioContextRef GawinVoiceInterface.analyserRef
         GawinVoiceInterface.streamRef GawinVoiceInterface.animationRef GawinVoiceInterface.cells GawinVoiceInterface.state].
    rewrite !filter_app.
    assert (T : filter is_start match stream with
                         | Some tracks => map track_stop tracks
                         | None => []
                         end = []).
    { destruct stream; [now apply filter_map_none|reflexivity]. }
    rewrite T. destruct anim as [[|n]|], ctx, rec, syn; reflexivity.
Qed.

Lemma aivoice_start_step (host : NumberHost) (e : AIVoiceInterface.Event) (c : AIVoiceInterface.Component) :
  filter is_start (calls_of (AIVoiceInterface.dispatch host e c)) =
  if is_mic_click e && AIVoiceInterface.recognitionRef c && negb (AIVoiceInterface.isListening (AIVoiceInterface.cells c))
     && negb (AIVoiceInterface.mic_button_disabled (AIVoiceInterface.cells c))
  then [recognition_start] else [].
Proof.
  destruct c as [[st l tr resp m] rec syn].
  destruct e as [|sp| |text fin|net| | | |].
  - destruct rec, l, st; reflexivity.
  - destruct syn, sp; reflexivity.
  - reflexivity.
  - destruct fin; reflexivity.
  - cbn. unfold AIVoiceInterface.handleVoiceInput_settle.
    destruct (try_block host net), syn; reflexivity.
  - reflexivity.
  - reflexivity.
  - reflexivity.
  - destruct rec, syn; reflexivity.
Qed.

(** Recognition is started by the click handlers only, at most once for each
    run of the handler: [handleCubeClick] in [GawinVoiceInterface], the
    [onClick] of the microphone button in [AIVoiceInterface].  An event
    [CubeClick] is one run of [handleCubeClick]; the cube binds the handler
    both to its wrapper and to its mesh, so one click of the pointer can run
    it more than once. *)
Theorem recognition_is_started_by_click_handlers_only
  (host : NumberHost)
  (ges : list GawinVoiceInterface.Event) (g : GawinVoiceInterface.Component)
  (aes : list AIVoiceInterface.Event) (a : AIVoiceInterface.Component) :
  (length (filter is_start (snd (GawinVoiceInterface.run host ges g)))
   <= length (filter is_cube_click ges))%nat
  /\ (length (filter is_start (snd (AIVoiceInterface.run host aes a)))
      <= length (filter is_mic_click aes))%nat.
Proof.
  split.
  - revert g. induction ges as [|e es IH]; intros g; [cbn; lia|].
    rewrite gawin_run_cons. cbn [fst snd].
    rewrite filter_app, length_app, gawin_start_step.
    specialize (IH (after (GawinVoiceInterface.dispatch host e g))).
    cbn [filter]. destruct (is_cube_click e); cbn [andb length].
    + destruct (_ && _ && _); cbn [length]; lia.
    + cbn [length]. lia.
  - revert a. induction aes as [|e es IH]; intros a; [cbn; lia|].
    rewrite aivoice_run_cons. cbn [fst snd].
    rewrite filter_app, length_app, aivoice_start_step.
    specialize (IH (after (AIVoiceInterface.dispatch host e a))).
    cbn [filter]. destruct (is_mic_click e); cbn [andb length].
    + destruct (_ && _ && _); cbn [length]; lia.
    + cbn [length]. lia.
Qed.

(** Clicks that arrive before the recognizer reports [start] are not held
    back: from [idle], with a recognizer that is not listening, each of [n]
    clicks in a row calls [recognition.start()]; in [GawinVoiceInterface]
    the component is left as it was. *)
Theorem clicks_are_not_held_back
  (host : NumberHost) (g : GawinVoiceInterface.Component)
  (a : AIVoiceInterface.Component) (n : nat) :
  (GawinVoiceInterface.recognitionRef g = true ->
   GawinVoiceInterface.isListening (GawinVoiceInterface.cells g) = false ->
   GawinVoiceInterface.state (GawinVoiceInterface.cells g) = idle ->
   GawinVoiceInterface.run host (repeat GawinVoiceInterface.CubeClick n) g
   = (g, repeat recognition_start n))
  /\ (AIVoiceInterface.recognitionRef a = true ->
      AIVoiceInterface.isListening (AIVoiceInterface.cells a) = false ->
      AIVoiceInterface.state (AIVoiceInterface.cells a) = idle ->
      filter is_start (snd (AIVoiceInterface.run host (repeat AIVoiceInterface.MicClick n) a))
      = repeat recognition_start n).
Proof.
  split.
  - intros Hr Hl Hs. induction n as [|n IH]; [reflexivity|].
    cbn [repeat]. rewrite gawin_run_cons.
    assert (E : GawinVoiceInterface.dispatch host GawinVoiceInterface.CubeClick g
                = (tt, g, [recognition_start])).
    { destruct g as [[st l lev] rec syn ctx an stream anim]. cbn in *.
      subst. reflexivity. }
    rewrite E. unfold after, calls_of. cbn [fst snd]. now rewrite IH.
  - revert a. induction n as [|n IH]; intros a Hr Hl Hs; [reflexivity|].
    cbn [repeat]. rewrite aivoice_run_cons. cbn [snd].
    rewrite filter_app, aivoice_start_step.
    destruct a as [[st l tr resp m] rec syn]. cbn in Hr, Hl, Hs. subst.
    rewrite IH; reflexivity.
Qed.

Lemma clicks_witness :
  GawinVoiceInterface.run lexeme_host (repeat GawinVoiceInterface.CubeClick 2)
    (GawinVoiceInterface.mount true true true None)
  = (GawinVoiceInterface.mount true true true None, [recognition_start; recognition_start]).
Proof.
  exact (proj1 (@clicks_are_not_held_back lexeme_host
                  (GawinVoiceInterface.mount true true true None)
                  (AIVoiceInterface.mount true true) 2)
           eq_refl eq_refl eq_refl).
Defined.

(* ------------------------------------------------------------------ *)
(** ** The sampler over runs *)

Lemma level_unit_interval (d : list Byte.byte) :
  length d = GawinVoiceInterface.bufferLength -> unit_interval (GawinVoiceInterface.level d).
Proof.
  intros Hlen. pose proof (reduce_sum_range d) as Hsum. rewrite Hlen in Hsum.
  change (Z.of_nat GawinVoiceInterface.bufferLength) with 128%Z in Hsum.
  unfold unit_interval, GawinVoiceInterface.level, GawinVoiceInterface.average, GawinVoiceInterface.over.
  change (Z.of_nat GawinVoiceInterface.bufferLength) with 128%Z.
  unfold Qle, Qdiv, Qmult, Qinv, inject_Z; simpl. lia.
Qed.

Lemma sampler_step (host : NumberHost) (e : GawinVoiceInterface.Event) (c : GawinVoiceInterface.Component) :
  let r := GawinVoiceInterface.dispatch host e c in
  filter is_log (calls_of r) = []
  /\ GawinVoiceInterface.analyserRef (after r) = GawinVoiceInterface.analyserRef c
  /\ (GawinVoiceInterface.analyserRef c = true ->
      GawinVoiceInterface.animationRef (after r) = last_frame [e] (GawinVoiceInterface.animationRef c)
      /\ length (filter is_frame_request (calls_of r)) = frames_analysed [e])
  /\ (GawinVoiceInterface.analyserRef c = false ->
      GawinVoiceInterface.animationRef (after r) = GawinVoiceInterface.animationRef c
      /\ GawinVoiceInterface.audioLevel (GawinVoiceInterface.cells (after r)) = GawinVoiceInterface.audioLevel (GawinVoiceInterface.cells c)
      /\ filter is_frame_request (calls_of r) = [])
  /\ (frame_sized e -> unit_interval (GawinVoiceInterface.audioLevel (GawinVoiceInterface.cells c)) ->
      unit_interval (GawinVoiceInterface.audioLevel (GawinVoiceInterface.cells (after r)))).
Proof.
  destruct c as [[st l lev] rec syn ctx an stream anim].
  destruct e as [| |text|net| | | |d frame|].
  - destruct rec, l, st; cbn; repeat split; intros; try congruence; auto;
      unfold unit_interval in *; tauto.
  - cbn; repeat split; intros; try congruence; auto; unfold unit_interval in *; tauto.
  - cbn; repeat split; intros; try congruence; auto; unfold unit_interval in *; tauto.
  - cbn. unfold GawinVoiceInterface.handleVoiceInput_settle.
    destruct (try_block host net), syn; cbn; repeat split;
      intros; try congruence; auto; unfold unit_interval in *; tauto.
  - cbn; repeat split; intros; try congruence; auto; unfold unit_interval in *; tauto.
  - cbn; repeat split; intros; try congruence; auto; unfold unit_interval in *; tauto.
  - cbn; repeat split; intros; try congruence; auto; unfold unit_interval in *; tauto.
  - destruct an;
      [|cbn; repeat split; intros; try congruence; auto; unfold unit_interval in *; tauto].
    cbn -[GawinVoiceInterface.level]. unfold GawinVoiceInterface.analyze.
    destruct (GawinVoiceInterface.isMusic d); cbn -[GawinVoiceInterface.level]; repeat split; intros; try congruence;
      auto; now apply level_unit_interval.
  - cbn -[GawinVoiceInterface.unmount]. rewrite unmount_calls. unfold after, calls_of.
    cbn [fst snd GawinVoiceInterface.recognitionRef GawinVoiceInterface.synthRef GawinVoiceInterface.audioContextRef GawinVoiceInterface.analyserRef
         GawinVoiceInterface.streamRef GawinVoiceInterface.animationRef GawinVoiceInterface.cells GawinVoiceInterface.state GawinVoiceInterface.audioLevel].
    rewrite !filter_app.
    assert (T : forall f, (forall t, f (track_stop t) = false) ->
                filter f match stream with
                         | Some tracks => map track_stop tracks
                         | None => []
                         end = []).
    { intros f Hf. destruct stream; [now apply filter_map_none|reflexivity]. }
    rewrite !T by reflexivity.
    destruct anim as [[|n]|], ctx, rec, syn; cbn; repeat split;
      intros; try congruence; auto; unfold unit_interval in *; tauto.
Qed.

Lemma sampler_facts (host : NumberHost) (es : list GawinVoiceInterface.Event) (c : GawinVoiceInterface.Component) :
  filter is_log (snd (GawinVoiceInterface.run host es c)) = []
  /\ (if GawinVoiceInterface.analyserRef c
      then GawinVoiceInterface.animationRef (fst (GawinVoiceInterface.run host es c)) = last_frame es (GawinVoiceInterface.animationRef c)
           /\ length (filter is_frame_request (snd (GawinVoiceInterface.run host es c))) = frames_analysed es
      else GawinVoiceInterface.animationRef (fst (GawinVoiceInterface.run host es c)) = GawinVoiceInterface.animationRef c
           /\ GawinVoiceInterface.audioLevel (GawinVoiceInterface.cells (fst (GawinVoiceInterface.run host es c))) = GawinVoiceInterface.audioLevel (GawinVoiceInterface.cells c)
           /\ filter is_frame_request (snd (GawinVoiceInterface.run host es c)) = []).
Proof.
  revert c. induction es as [|e es IH]; intros c.
  - cbn. destruct (GawinVoiceInterface.analyserRef c); repeat split.
  - rewrite gawin_run_cons. cbn [fst snd].
    destruct (sampler_step host e c) as (L & An & On & Off & _). cbv zeta in *.
    destruct (IH (after (GawinVoiceInterface.dispatch host e c))) as (IL & IA).
    rewrite !filter_app, L, IL, An in *. split; [reflexivity|].
    destruct (GawinVoiceInterface.analyserRef c).
    + destruct (On eq_refl) as [O1 O2]. destruct IA as [I1 I2].
      rewrite I1, O1, length_app, O2, I2. split; [reflexivity|].
      unfold frames_analysed. cbn [filter]. destruct e; reflexivity.
    + destruct (Off eq_refl) as (O1 & O2 & O3). destruct IA as (I1 & I2 & I3).
      rewrite I1, I2, I3, O1, O2, O3. repeat split.
Qed.

(** Over every sequence of events of the mounted [GawinVoiceInterface] the
    music detection never logs: [analyze] is the closure of the first render
    and tests that render's [state].  With an analyser, one animation frame
    is requested for every frame analysed; without one none is requested and
    the audio level is never written. *)
Theorem sampler_never_reports_music
  (host : NumberHost) (es : list GawinVoiceInterface.Event)
  (c : GawinVoiceInterface.Component) :
  filter is_log (snd (GawinVoiceInterface.run host es c)) = []
  /\ (if GawinVoiceInterface.analyserRef c
      then length (filter is_frame_request (snd (GawinVoiceInterface.run host es c)))
           = frames_analysed es
      else filter is_frame_request (snd (GawinVoiceInterface.run host es c)) = []
           /\ GawinVoiceInterface.audioLevel
                (GawinVoiceInterface.cells (fst (GawinVoiceInterface.run host es c)))
              = GawinVoiceInterface.audioLevel (GawinVoiceInterface.cells c)).
Proof.
  destruct (sampler_facts host es c) as [L R]. split; [exact L|].
  destruct (GawinVoiceInterface.analyserRef c).
  - exact (proj2 R).
  - destruct R as (_ & R1 & R2). now split.
Qed.

(** With an analyser, unmounting after any sequence of events cancels
    exactly the animation frame requested last - none when its id is 0 or
    when no frame was requested. *)
Theorem unmount_cancels_pending_frame
  (host : NumberHost) (es : list GawinVoiceInterface.Event)
  (c : GawinVoiceInterface.Component) :
  GawinVoiceInterface.analyserRef c = true ->
  filter is_cancel_frame
    (calls_of (GawinVoiceInterface.dispatch host GawinVoiceInterface.Unmount
                 (fst (GawinVoiceInterface.run host es c))))
  = match last_frame es (GawinVoiceInterface.animationRef c) with
    | Some (S n) => [cancelAnimationFrame (S n)]
    | _ => []
    end.
Proof.
  intros Han. destruct (sampler_facts host es c) as [_ R].
  rewrite Han in R. destruct R as [R _].
  cbn [GawinVoiceInterface.dispatch]. rewrite unmount_calls.
  unfold calls_of. cbn [fst snd]. rewrite R, !filter_app.
  assert (T : filter is_cancel_frame
                match GawinVoiceInterface.streamRef (fst (GawinVoiceInterface.run host es c)) with
                | Some tracks => map track_stop tracks
                | None => []
                end = []).
  { destruct (GawinVoiceInterface.streamRef _); [now apply filter_map_none|reflexivity]. }
  rewrite T.
  destruct (last_frame es (GawinVoiceInterface.animationRef c)) as [[|n]|],
    (GawinVoiceInterface.audioContextRef _), (GawinVoiceInterface.recognitionRef _),
    (GawinVoiceInterface.synthRef _); reflexivity.
Qed.

Lemma unmount_cancels_witness :
  filter is_cancel_frame
    (calls_of (GawinVoiceInterface.dispatch lexeme_host GawinVoiceInterface.Unmount
                 (fst (GawinVoiceInterface.run lexeme_host
                         [GawinVoiceInterface.AnimationFrame (repeat Byte.x00 128) 4;
                          GawinVoiceInterface.CubeClick;
                          GawinVoiceInterface.AnimationFrame (repeat Byte.xff 128) 5]
                         (GawinVoiceInterface.mount true true true (Some [1%nat]))))))
  = [cancelAnimationFrame 5].
Proof.
  exact (@unmount_cancels_pending_frame lexeme_host
           [GawinVoiceInterface.AnimationFrame (repeat Byte.x00 128) 4;
            GawinVoiceInterface.CubeClick;
            GawinVoiceInterface.AnimationFrame (repeat Byte.xff 128) 5]
           (GawinVoiceInterface.mount true true true (Some [1%nat])) eq_refl).
Defined.

(** Whatever events the component has seen, as long as every sample array
    had the length of the analyser's buffer, the audio level it holds lies
    between 0 and 1. *)
Theorem audio_level_stays_in_unit_interval
  (host : NumberHost) (es : list GawinVoiceInterface.Event)
  (c : GawinVoiceInterface.Component) :
  Forall frame_sized es ->
  unit_interval (GawinVoiceInterface.audioLevel (GawinVoiceInterface.cells c)) ->
  unit_interval
    (GawinVoiceInterface.audioLevel
       (GawinVoiceInterface.cells (fst (GawinVoiceInterface.run host es c)))).
Proof.
  intros Hes. revert c. induction Hes as [|e es He Hes IH]; intros c Hc.
  - exact Hc.
  - rewrite gawin_run_cons. cbn [fst].
    apply IH. destruct (sampler_step host e c) as (_ & _ & _ & _ & U).
    now apply U.
Qed.

Lemma audio_level_stays_witness :
  GawinVoiceInterface.audioLevel
    (GawinVoiceInterface.cells
       (fst (GawinVoiceInterface.run lexeme_host
               [GawinVoiceInterface.AnimationFrame (repeat Byte.xff 128) 1;
                GawinVoiceInterface.CubeClick;
                GawinVoiceInterface.AnimationFrame (repeat Byte.x7f 128) 2]
               (GawinVoiceInterface.mount true true true (Some [1%nat])))))
  <= 1.
Proof.
  refine (proj2 (@audio_level_stays_in_unit_interval lexeme_host
            [GawinVoiceInterface.AnimationFrame (repeat Byte.xff 128) 1;
             GawinVoiceInterface.CubeClick;
             GawinVoiceInterface.AnimationFrame (repeat Byte.x7f 128) 2]
            (GawinVoiceInterface.mount true true true (Some [1%nat])) _ _)).
  - repeat constructor.
  - split; discriminate.
Defined.

(* ------------------------------------------------------------------ *)
(** ** The band test in binary64 *)

Lemma band_tests_agree (total : Z) :
  ((0 <= total <= 10200)%Z -> band_test_agrees 40 100 total = true)
  /\ ((0 <= total <= 12750)%Z -> band_test_agrees 50 80 total = true)
  /\ ((0 <= total <= 2550)%Z -> band_test_agrees 10 60 total = true).
Proof.
  assert (T1 : all_below 10201 (band_test_agrees 40 100) = true)
    by (vm_cast_no_check (eq_refl true)).
  assert (T2 : all_below 12751 (band_test_agrees 50 80) = true)
    by (vm_cast_no_check (eq_refl true)).
  assert (T3 : all_below 2551 (band_test_agrees 10 60) = true)
    by (vm_cast_no_check (eq_refl true)).
  repeat split; intros H.
  - apply (@all_below_spec _ _ T1); lia.
  - apply (@all_below_spec _ _ T2); lia.
  - apply (@all_below_spec _ _ T3); lia.
Qed.

Lemma band_sum_range (from to : nat) (d : list Byte.byte) :
  (0 <= GawinVoiceInterface.reduce_sum (firstn (to - from) (skipn from d)) <= 255 * Z.of_nat (to - from))%Z.
Proof.
  pose proof (reduce_sum_range (firstn (to - from) (skipn from d))) as H.
  pose proof (firstn_le_length (to - from) (skipn from d)) as L.
  nia.
Qed.

Lemma Qgtb_over (total : Z) (n : nat) (threshold : Z) :
  (0 < n)%nat ->
  GawinVoiceInterface.Qgtb (GawinVoiceInterface.over total n) (inject_Z threshold) = Z.ltb (threshold * Z.of_nat n) total.
Proof.
  intros Hn. unfold GawinVoiceInterface.Qgtb, GawinVoiceInterface.over.
  destruct (Z.ltb_spec (threshold * Z.of_nat n) total) as [H|H].
  - apply negb_true_iff. destruct (Qle_bool _ _) eqn:E; [|reflexivity].
    apply Qle_bool_iff in E. exfalso.
    apply (Qmult_le_compat_r _ _ (inject_Z (Z.of_nat n))) in E.
    + rewrite Qmult_comm, Qmult_div_r in E.
      * rewrite <- inject_Z_mult, <- Zle_Qle in E. lia.
      * intros Q0. unfold Qeq in Q0. simpl in Q0. lia.
    + rewrite <- (Zle_Qle 0). lia.
  - apply negb_false_iff. apply Qle_bool_iff.
    apply Qle_shift_div_r.
    + rewrite <- (Zlt_Qlt 0). lia.
    + rewrite <- inject_Z_mult, <- Zle_Qle. lia.
Qed.

(** The music test is a test on three integer sums - more than 4000 over
    bins 10 to 49, more than 4000 over bins 50 to 99, more than 600 over bins
    0 to 9 - and the binary64 divisions and comparisons of the source decide
    it exactly as the exact ones do, for every sample array. *)
Theorem isMusic_thresholds (dataArray : list Byte.byte) :
  GawinVoiceInterface.isMusic dataArray =
    (Z.ltb 4000 (mid_sum dataArray) && Z.ltb 4000 (high_sum dataArray)
     && Z.ltb 600 (low_sum dataArray))
  /\ isMusic64 dataArray = GawinVoiceInterface.isMusic dataArray.
Proof.
  assert (E : GawinVoiceInterface.isMusic dataArray =
    (Z.ltb 4000 (mid_sum dataArray) && Z.ltb 4000 (high_sum dataArray)
     && Z.ltb 600 (low_sum dataArray))).
  { unfold GawinVoiceInterface.isMusic, GawinVoiceInterface.band.
    change 100 with (inject_Z 100). change 80 with (inject_Z 80).
    change 60 with (inject_Z 60).
    rewrite !Qgtb_over by (simpl; lia). reflexivity. }
  split; [exact E|]. rewrite E.
  unfold isMusic64, band64.
  pose proof (band_sum_range 10 50 dataArray) as H1.
  pose proof (band_sum_range 50 100 dataArray) as H2.
  pose proof (band_sum_range 0 10 dataArray) as H3.
  change (50 - 10)%nat with 40%nat in *. change (100 - 50)%nat with 50%nat in *.
  change (10 - 0)%nat with 10%nat in *.
  change (Z.of_nat 40) with 40%Z in *. change (Z.of_nat 50) with 50%Z in *.
  change (Z.of_nat 10) with 10%Z in *.
  destruct (band_tests_agree (GawinVoiceInterface.reduce_sum (firstn 40 (skipn 10 dataArray)))) as (B1 & _ & _).
  destruct (band_tests_agree (GawinVoiceInterface.reduce_sum (firstn 50 (skipn 50 dataArray)))) as (_ & B2 & _).
  destruct (band_tests_agree (GawinVoiceInterface.reduce_sum (firstn 10 (skipn 0 dataArray)))) as (_ & _ & B3).
  specialize (B1 ltac:(lia)). specialize (B2 ltac:(lia)). specialize (B3 ltac:(lia)).
  unfold band_test_agrees in B1, B2, B3.
  apply eqb_prop in B1, B2, B3. rewrite B1, B2, B3. reflexivity.
Qed.

(* ------------------------------------------------------------------ *)
(** ** The ice cube *)

(** The scale the frame callback sets does not depend on the voice state the
    cube was rendered with: inside the callback [state] is the callback's
    parameter, so both comparisons with a string are false and the state
    factor is 1.  The scale is the breathing scale, between 0.95 and 1.05. *)
Theorem cube_scale_ignores_voice_state
  (voice voice' : VoiceState) (state : nat) (sine : Q) (mesh : GawinIceCube.Mesh) :
  -1 <= sine -> sine <= 1 ->
  match GawinIceCube.useFrame voice state sine (Some mesh),
        GawinIceCube.useFrame voice' state sine (Some mesh) with
  | Some m, Some m' =>
      GawinIceCube.scale m = GawinIceCube.scale m'
      /\ GawinIceCube.scale m == 1 + sine * (5 # 100)
      /\ 95 # 100 <= GawinIceCube.scale m /\ GawinIceCube.scale m <= 105 # 100
  | _, _ => False
  end.
Proof.
  intros H1 H2. cbn. repeat split; nra.
Qed.

Lemma cube_scale_witness :
  match GawinIceCube.useFrame listening 0 (1 # 2)
          (Some {| GawinIceCube.scale := 1; GawinIceCube.rotation_x := 0;
                   GawinIceCube.rotation_y := 0; GawinIceCube.rotation_z := 0 |}),
        GawinIceCube.useFrame idle 0 (1 # 2)
          (Some {| GawinIceCube.scale := 1; GawinIceCube.rotation_x := 0;
                   GawinIceCube.rotation_y := 0; GawinIceCube.rotation_z := 0 |}) with
  | Some m, Some m' => GawinIceCube.scale m = GawinIceCube.scale m'
  | _, _ => False
  end.
Proof.
  refine (proj1 (@cube_scale_ignores_voice_state listening idle 0 (1 # 2)
            {| GawinIceCube.scale := 1; GawinIceCube.rotation_x := 0;
               GawinIceCube.rotation_y := 0; GawinIceCube.rotation_z := 0 |} _ _));
    discriminate.
Defined.

(* ------------------------------------------------------------------ *)
(** ** The ripples of the sphere *)

Lemma sphere_invariant_mount (now : Z) (v : VoiceState) : sphere_invariant (AIVoiceSphere.mount now v).
Proof. destruct v; cbn; repeat split; congruence. Qed.

Lemma sphere_invariant_step (s : AIVoiceSphere.Sphere) (e : AIVoiceSphere.Event) :
  sphere_invariant s -> sphere_invariant (AIVoiceSphere.step s e).
Proof.
  destruct s as [st rs iv tm]. unfold sphere_invariant. cbn.
  destruct e as [now v|now]; cbn.
  - unfold AIVoiceSphere.render, AIVoiceSphere.state_cleanup. cbn.
    destruct iv as [i|].
    + intros [-> H]. destruct v; cbn; repeat split; try congruence; try exact H.
    + intros (N & -> & ->).
      destruct v, st; cbn; repeat split; congruence.
  - unfold AIVoiceSphere.timer. cbn.
    destruct iv as [i|], tm as [d|].
    + intros (-> & Hd & Hr).
      destruct (Z.ltb_spec d i); [lia|].
      destruct (Z.leb i now); cbn.
      * destruct rs; [congruence|]. cbn. repeat split; try lia; congruence.
      * repeat split; auto.
    + intros (-> & ->).
      destruct (Z.leb i now); cbn; repeat split; try lia; congruence.
    + intros (_ & _ & H). discriminate.
    + auto.
Qed.

Lemma sphere_invariant_run (es : list AIVoiceSphere.Event) (s : AIVoiceSphere.Sphere) :
  sphere_invariant s -> sphere_invariant (AIVoiceSphere.run es s).
Proof.
  revert s. induction es as [|e es IH]; intros s H; [exact H|].
  cbn. apply IH. now apply sphere_invariant_step.
Qed.

(** After every sequence of renders and timer runs of a mounted sphere:
    there are ripples only while the prop is [listening], the interval is
    set exactly then, the timeout exactly while there is a ripple; and a
    timer run does nothing or is the interval's callback, so it never takes a
    ripple away - the interval is always due before the timeout. *)
Theorem ripples_only_grow_while_listening
  (t0 : Z) (v : VoiceState) (es : list AIVoiceSphere.Event) (now : Z) :
  let s := AIVoiceSphere.run es (AIVoiceSphere.mount t0 v) in
  (AIVoiceSphere.state s <> listening -> AIVoiceSphere.ripples s = [] /\ AIVoiceSphere.interval s = None /\ AIVoiceSphere.timeout s = None)
  /\ (AIVoiceSphere.state s = listening -> AIVoiceSphere.interval s <> None)
  /\ (AIVoiceSphere.ripples s = [] <-> AIVoiceSphere.timeout s = None)
  /\ (AIVoiceSphere.timer now s = s \/ AIVoiceSphere.timer now s = AIVoiceSphere.interval_callback now s)
  /\ is_prefix (AIVoiceSphere.ripples s) (AIVoiceSphere.ripples (AIVoiceSphere.timer now s)).
Proof.
  intros s.
  assert (I : sphere_invariant s)
    by (apply sphere_invariant_run, sphere_invariant_mount).
  clearbody s. destruct s as [st rs iv tm]. unfold sphere_invariant in I. cbn in *.
  unfold AIVoiceSphere.timer. cbn.
  destruct iv as [i|].
  - destruct I as [-> I]. destruct tm as [d|].
    + destruct I as [Hd Hr].
      destruct (Z.ltb_spec d i); [lia|].
      repeat split; try congruence.
      * destruct (Z.leb i now); auto.
      * destruct (Z.leb i now); cbn; [now exists [now]|exists []; now rewrite app_nil_r].
    + subst rs. repeat split; try congruence.
      * destruct (Z.leb i now); auto.
      * destruct (Z.leb i now); cbn; [now exists [now]|now exists []].
  - destruct I as (N & -> & ->). repeat split; try congruence; auto.
    now exists [].
Qed.

Lemma ripples_only_grow_witness :
  AIVoiceSphere.ripples
    (AIVoiceSphere.run
       [AIVoiceSphere.Timer 800; AIVoiceSphere.Timer 1600;
        AIVoiceSphere.Render 1700 processing]
       (AIVoiceSphere.mount 0 listening))
  = [].
Proof.
  refine (proj1 (proj1 (@ripples_only_grow_while_listening 0 listening
            [AIVoiceSphere.Timer 800; AIVoiceSphere.Timer 1600;
             AIVoiceSphere.Render 1700 processing] 0) _)).
  discriminate.
Defined.

Lemma run_ticks (t : Z) (n : nat) (rs : list Z) (tm : option Z) :
  match tm with Some d => (t + 800 < d)%Z /\ rs <> [] | None => rs = [] end ->
  AIVoiceSphere.ripples
    (AIVoiceSphere.run (map AIVoiceSphere.Timer (ticks t n))
       {| AIVoiceSphere.state := listening; AIVoiceSphere.ripples := rs;
          AIVoiceSphere.interval := Some (t + 800)%Z; AIVoiceSphere.timeout := tm |})
  = rs ++ ticks t n.
Proof.
  revert t rs tm. induction n as [|n IH]; intros t rs tm H; [cbn; now rewrite app_nil_r|].
  cbn [ticks map AIVoiceSphere.run fold_left AIVoiceSphere.step]. unfold AIVoiceSphere.timer. cbn.
  assert (E : (if match tm with
               | Some d => negb (Z.ltb d (t + 800))
               | None => true end then true else false) = true).
  { destruct tm as [d|]; [|reflexivity]. destruct (Z.ltb_spec d (t + 800)); [lia|reflexivity]. }
  assert (R : rs ++ [(t + 800)%Z] <> []) by (destruct rs; discriminate).
  destruct tm as [d|].
  - destruct (Z.ltb_spec d (t + 800)); [lia|].
    rewrite Z.leb_refl. unfold AIVoiceSphere.interval_callback, AIVoiceSphere.setRipples, AIVoiceSphere.ripples_effect. cbn.
    destruct (rs ++ [(t + 800)%Z]) as [|x y] eqn:Q; [congruence|].
    rewrite <- Q. fold (AIVoiceSphere.run (map AIVoiceSphere.Timer (ticks (t + 800) n))).
    rewrite (IH (t + 800)%Z); [now rewrite <- app_assoc|]. split; [lia|first [assumption|discriminate|congruence]].
  - rewrite Z.leb_refl. unfold AIVoiceSphere.interval_callback, AIVoiceSphere.setRipples, AIVoiceSphere.ripples_effect. cbn.
    destruct (rs ++ [(t + 800)%Z]) as [|x y] eqn:Q; [congruence|].
    rewrite <- Q. fold (AIVoiceSphere.run (map AIVoiceSphere.Timer (ticks (t + 800) n))).
    rewrite (IH (t + 800)%Z); [now rewrite <- app_assoc|]. split; [lia|first [assumption|discriminate|congruence]].
Qed.

(** While the prop stays [listening] and the interval fires on time, a
    ripple is added every 800 ms and none is removed: after [n] firings there
    are [n] ripples. *)
Theorem ripples_accumulate_while_listening (t0 : Z) (n : nat) :
  AIVoiceSphere.ripples (AIVoiceSphere.run (map AIVoiceSphere.Timer (ticks t0 n)) (AIVoiceSphere.mount t0 listening)) = ticks t0 n.
Proof.
  change (AIVoiceSphere.mount t0 listening)
    with {| AIVoiceSphere.state := listening; AIVoiceSphere.ripples := []; AIVoiceSphere.interval := Some (t0 + 800)%Z;
            AIVoiceSphere.timeout := None |}.
  now rewrite (@run_ticks t0 n [] None).
Qed.

(* ------------------------------------------------------------------ *)
(** ** After an end without a result *)

Lemma gawin_listening_step
  (host : NumberHost) (e : GawinVoiceInterface.Event) (c : GawinVoiceInterface.Component) :
  user_or_frame e = true ->
  GawinVoiceInterface.state (GawinVoiceInterface.cells c) = listening ->
  GawinVoiceInterface.state
    (GawinVoiceInterface.cells (after (GawinVoiceInterface.dispatch host e c))) = listening
  /\ filter (fun k => negb (is_frame_request k))
        (calls_of (GawinVoiceInterface.dispatch host e c)) = [].
Proof.
  destruct c as [[st l lev] rec syn ctx an stream anim].
  destruct e as [| |text|net| | | |d frame|]; try discriminate; intros _ Hs;
    cbn in Hs; subst st.
  - destruct rec, l; cbn; now split.
  - cbn. destruct an; [|now split]. unfold GawinVoiceInterface.analyze.
    destruct (GawinVoiceInterface.isMusic d); cbn; now split.
Qed.

(** [GawinVoiceInterface] does not recover from a recognizer that ends
    without a result: after a click, the recognizer's [start] and its [end],
    the state is [listening], and whatever clicks and animation frames
    follow, the state stays [listening] and no call is made except for
    requesting animation frames - the cube starts no recognition again. *)
Theorem cube_is_dead_after_silent_end
  (host : NumberHost) (speechSynthesis AudioContext : bool)
  (userMedia : option (list nat)) (es : list GawinVoiceInterface.Event) :
  forallb user_or_frame es = true ->
  let r := GawinVoiceInterface.run host
             ([GawinVoiceInterface.CubeClick; GawinVoiceInterface.RecognitionStart;
               GawinVoiceInterface.RecognitionEnd] ++ es)
             (GawinVoiceInterface.mount true speechSynthesis AudioContext userMedia) in
  GawinVoiceInterface.state (GawinVoiceInterface.cells (fst r)) = listening
  /\ filter (fun k => negb (is_frame_request k)) (snd r) = [recognition_start].
Proof.
  intros Hes r. subst r.
  cbn [app]. rewrite !gawin_run_cons. cbn [fst snd].
  set (c := after (GawinVoiceInterface.dispatch host GawinVoiceInterface.RecognitionEnd _)).
  assert (Hc : GawinVoiceInterface.state (GawinVoiceInterface.cells c) = listening)
    by reflexivity.
  assert (K : forall c0, GawinVoiceInterface.state (GawinVoiceInterface.cells c0) = listening ->
              GawinVoiceInterface.state
                (GawinVoiceInterface.cells (fst (GawinVoiceInterface.run host es c0))) = listening
              /\ filter (fun k => negb (is_frame_request k))
                    (snd (GawinVoiceInterface.run host es c0)) = []).
  { clear c Hc. induction es as [|e es IH]; intros c0 H0; [now split|].
    cbn [forallb] in Hes. apply andb_prop in Hes. destruct Hes as [He Hes].
    rewrite gawin_run_cons. cbn [fst snd].
    destruct (gawin_listening_step host e c0 He H0) as [S1 S2].
    destruct (IH Hes _ S1) as [I1 I2].
    now rewrite filter_app, S2, I2. }
  destruct (K c Hc) as [K1 K2]. split; [exact K1|].
  rewrite !filter_app, K2. reflexivity.
Qed.

Lemma cube_is_dead_witness :
  snd (GawinVoiceInterface.run lexeme_host
         [GawinVoiceInterface.CubeClick; GawinVoiceInterface.RecognitionStart;
          GawinVoiceInterface.RecognitionEnd;
          GawinVoiceInterface.CubeClick; GawinVoiceInterface.CubeClick]
         (GawinVoiceInterface.mount true true false None))
  = [recognition_start].
Proof.
  exact (proj2 (@cube_is_dead_after_silent_end lexeme_host true false None
                  [GawinVoiceInterface.CubeClick; GawinVoiceInterface.CubeClick]
                  eq_refl)).
Defined.

(* ------------------------------------------------------------------ *)
(** ** Bodies without the prefix *)

Lemma startsWith_app (p s : jsstring) : startsWith p (p ++ s) = true.
Proof.
  unfold startsWith. induction p as [|c p IH]; [reflexivity|].
  cbn [app strip_prefix]. now rewrite N.eqb_refl.
Qed.

Lemma includes_infix (needle a b : jsstring) :
  includes needle (a ++ needle ++ b) = true.
Proof.
  induction a as [|c a IH].
  - cbn [app]. destruct (needle ++ b) eqn:E; cbn [includes];
      rewrite <- E, startsWith_app; reflexivity.
  - cbn [app includes]. rewrite IH. apply orb_true_r.
Qed.

Lemma split_lines_infix (c l : jsstring) :
  In l (split_lines c) -> exists a b, c = a ++ l ++ b.
Proof.
  revert l. induction c as [|x c IH]; intros l Hin.
  - destruct Hin as [<-|[]]. now exists [], [].
  - cbn [split_lines] in Hin. destruct (N.eqb_spec x NL) as [->|Hx].
    + destruct Hin as [<-|Hin].
      * now exists [], (NL :: c).
      * destruct (IH l Hin) as (a & b & ->). now exists (NL :: a), b.
    + pose proof (split_lines_nonempty c) as Hne.
      destruct (split_lines c) as [|l0 ls] eqn:E; [congruence|].
      destruct Hin as [<-|Hin].
      * destruct (IH l0 (or_introl eq_refl)) as (a & b & Hc).
        (* the first line of [c] starts [c] *)
        assert (P : exists b', c = l0 ++ b').
        { clear -E. revert l0 ls E. induction c as [|y c IHc]; intros l0 ls E.
          - cbn in E. injection E as <- _. now exists [].
          - cbn [split_lines] in E. destruct (N.eqb y NL).
            + injection E as <- _. now exists (y :: c).
            + destruct (split_lines c) as [|l1 ls1] eqn:E1.
              * injection E as <- _. exists c. reflexivity.
              * injection E as <- _. destruct (IHc l1 ls1 eq_refl) as [b' ->].
                now exists b'. }
        destruct P as [b' ->]. now exists [], b'.
      * destruct (IH l (or_intror Hin)) as (a & b & ->). now exists (x :: a), b.
Qed.

Lemma startsWith_prefix (l : jsstring) :
  startsWith (str "0:") l = true -> exists t, l = str "0:" ++ t.
Proof.
  unfold startsWith. change (str "0:") with [48; 58]%N.
  destruct l as [|a [|b t]]; cbn [strip_prefix].
  - discriminate.
  - destruct (N.eqb 48 a); discriminate.
  - destruct (N.eqb_spec 48 a) as [<-|]; [|discriminate].
    destruct (N.eqb_spec 58 b) as [<-|]; [|discriminate].
    intros _. now exists t.
Qed.

Lemma concat_infix (cs : list jsstring) (c : jsstring) :
  In c cs -> exists x y, concat cs = x ++ c ++ y.
Proof.
  intros Hin. apply in_split in Hin. destruct Hin as (l1 & l2 & ->).
  rewrite concat_app. cbn [concat]. now exists (concat l1), (concat l2).
Qed.

Lemma lines_without_prefix (cs : list jsstring) :
  includes (str "0:") (concat cs) = false ->
  forall l, In l (lines_read cs) -> startsWith (str "0:") l = false.
Proof.
  intros H l Hin. unfold lines_read in Hin.
  apply in_concat in Hin. destruct Hin as (ls & Hls & Hl).
  apply in_map_iff in Hls. destruct Hls as (c & <- & Hc).
  destruct (startsWith (str "0:") l) eqn:E; [|reflexivity].
  exfalso.
  destruct (startsWith_prefix l E) as [t ->].
  destruct (split_lines_infix c _ Hl) as (a & b & ->).
  destruct (concat_infix cs _ Hc) as (x & y & Hcs).
  rewrite Hcs in H.
  replace (x ++ (a ++ (str "0:" ++ t) ++ b) ++ y)
    with ((x ++ a) ++ str "0:" ++ (t ++ b ++ y)) in H
    by (now rewrite <- !app_assoc).
  rewrite includes_infix in H. discriminate.
Qed.

(** A body whose text nowhere holds [0:] gives the fixed sentence however it
    is cut into chunks: no line of any chunk can start with the prefix. *)
Theorem body_without_prefix_gives_fallback
  (host : NumberHost) (cs : list jsstring) (text : jsstring)
  (g : GawinVoiceInterface.Component)
  (r : AIVoiceInterface.Cells) (a : AIVoiceInterface.Component) :
  includes (str "0:") (concat cs) = false ->
  read_loop host cs = []
  /\ result_of (GawinVoiceInterface.handleVoiceInput host text (delivered cs) g)
     = no_response_text
  /\ result_of (AIVoiceInterface.handleVoiceInput host r text (delivered cs) a)
     = no_response_text.
Proof.
  intros H.
  assert (E : read_loop host cs = []).
  { apply read_loop_silent. intros l Hl. apply frame_text_no_prefix.
    now apply (@lines_without_prefix cs H). }
  split; [exact E|].
  unfold GawinVoiceInterface.handleVoiceInput, AIVoiceInterface.handleVoiceInput,
    GawinVoiceInterface.handleVoiceInput_settle,
    AIVoiceInterface.handleVoiceInput_settle, delivered, try_block.
  cbn [chunks ending]. rewrite E.
  destruct g as [gk grec gsyn gctx gan gstream ganim].
  destruct a as [ak arec asyn].
  destruct gsyn, asyn, (AIVoiceInterface.isMuted r); cbn; split; reflexivity.
Qed.

Lemma body_without_prefix_witness :
  result_of (GawinVoiceInterface.handleVoiceInput lexeme_host (str "hi")
               (delivered [qstr "data: {'type':'text-delta','del"; qstr "ta':'Hi'}" ++ [NL; NL]])
               (GawinVoiceInterface.mount true true true None))
  = no_response_text.
Proof.
  exact (proj1 (proj2 (@body_without_prefix_gives_fallback lexeme_host
           [qstr "data: {'type':'text-delta','del"; qstr "ta':'Hi'}" ++ [NL; NL]]
           (str "hi") (GawinVoiceInterface.mount true true true None)
           AIVoiceInterface.first_render (AIVoiceInterface.mount true true)
           eq_refl))).
Defined.
